(** * Middleware composition of the Nitric Python SDK ([nitric/context.py])

  The development embeds the handler-to-middleware adapter
  ([_is_handler], [_convert_to_middleware]), the composer
  ([compose_middleware] with its closures [composed], [reduce_chain] and
  [chained_middleware]) and the [HttpResponse.body] property.

  Python callables are first-order values here: a user function is named
  and looked up in a function table, and each closure that the source
  builds is a constructor holding its captured variables.  A function body
  is a tree of effects ([prog]); [run] and [invoke] execute it, threading
  the heap, propagating exceptions and recording every call that is made.

  Every function is a coroutine function whose call is awaited at once, as
  in the source, so [await f(x)] is an ordinary call; calls pass positional
  arguments only, as all the calls of the source do. *)

From stdpp Require Import base option list strings gmap.
From Stdlib Require Import ZArith Lia.

(** ** Python values *)

Section Python.

(** [C] is the source's type variable [C] (the context objects), [Heap]
    the mutable state that functions can read and write (the fields of
    the context objects, logs, ...), [Err] the exceptions user code
    raises. *)
Context {C Heap Err : Type}.

(** Truth value of a context object ([bool(ctx)]).  The context classes of
    the module define neither [__bool__] nor [__len__], so theirs is
    constantly [true]. *)
Variable truthy_ctx : C -> bool.

#[warnings="-register-all"]
Inductive obj : Type :=
| PyNone
| Ctx (c : C)
| User (name : string)
    (* a function supplied by the user *)
| Closure_middleware (handler : obj)
    (* [middleware] of [_convert_to_middleware], capturing [handler] *)
| Closure_chained_middleware (cur acc_next : obj)
    (* [chained_middleware] of [reduce_chain], capturing [cur], [acc_next] *)
| Closure_composed (middlewares : list obj).
    (* [composed] of [compose_middleware], capturing [middlewares] *)

Definition is_None (v : obj) : bool :=
  match v with PyNone => true | _ => false end.

(** [bool(v)]: [None] is false, functions are true. *)
Definition truthy (v : obj) : bool :=
  match v with
  | PyNone => false
  | Ctx c => truthy_ctx c
  | _ => true
  end.

Inductive type_error : Type :=
| NotCallable      (* 'NoneType' object is not callable *)
| BadArguments.    (* missing or too many arguments *)

Inductive exn : Type :=
| TypeError (why : type_error)
| Exception (e : Err).

Inductive res (A : Type) : Type :=
| Ok (a : A)
| Error (e : exn).
Global Arguments Ok {A} a.
Global Arguments Error {A} e.

(** ** Signatures ([inspect.Signature]) *)

Inductive param_kind : Type :=
| POSITIONAL_ONLY
| POSITIONAL_OR_KEYWORD
| VAR_POSITIONAL
| KEYWORD_ONLY
| VAR_KEYWORD.

(** [default = None] stands for [inspect.Parameter.empty]. *)
Record parameter : Type := Param {
  pname : string;
  kind : param_kind;
  default : option obj
}.

Definition is_positional (p : parameter) : bool :=
  match kind p with
  | POSITIONAL_ONLY | POSITIONAL_OR_KEYWORD => true
  | _ => false
  end.

Definition is_var_positional (p : parameter) : bool :=
  match kind p with VAR_POSITIONAL => true | _ => false end.

Definition is_keyword_only (p : parameter) : bool :=
  match kind p with KEYWORD_ONLY => true | _ => false end.

Definition has_default (p : parameter) : bool :=
  match default p with Some _ => true | None => false end.

(** ** Effects of a function body *)

Inductive prog : Type :=
| Ret (v : obj)
| Raise (e : exn)
| Get (k : Heap -> prog)
| Put (h : Heap) (k : prog)
| Call (f : obj) (args : list obj) (k : obj -> prog)
    (* [await f( *args)], then [k] on the value returned *)
| Try (p : prog) (handler : exn -> prog) (k : obj -> prog).
    (* [try: p  except e: handler e], then [k] *)

Fixpoint bind (p : prog) (k : obj -> prog) : prog :=
  match p with
  | Ret v => k v
  | Raise e => Raise e
  | Get g => Get (fun h => bind (g h) k)
  | Put h p' => Put h (bind p' k)
  | Call f args g => Call f args (fun v => bind (g v) k)
  | Try p' handler g => Try p' handler (fun v => bind (g v) k)
  end.

Definition call (f : obj) (args : list obj) : prog := Call f args Ret.

Notation "x <- p ;; k" := (bind p (fun x => k))
  (at level 100, p at next level, right associativity).

(** A user function: its signature and its body, which receives the
    values bound to its positional parameters, in order, followed by
    what [*args] collected. *)
Record pyfunction : Type := Def {
  parameters : list parameter;
  body : list obj -> prog
}.

(** ** Execution *)

(** A call [f( *args)] that the run makes, whether [f] accepts it or not,
    with the heap as it was when the call was made. *)
Inductive event : Type :=
| Called (f : obj) (args : list obj) (h : Heap).

Inductive outcome : Type :=
| Returned (v : obj)
| Raised (e : exn).

(** What a run leaves: how it ended, the heap, and the calls it made, in
    the order in which they started. *)
Definition result : Type := outcome * Heap * list event.

Definition after (t : list event) (r : option result) : option result :=
  match r with
  | Some (o, h, t') => Some (o, h, t ++ t')
  | None => None
  end.

(** Sequencing: an exception ends the run, a returned value is handed
    on.  [None] is a run cut short by the lack of fuel. *)
Definition and_then (r : option result) (k : obj -> Heap -> option result)
  : option result :=
  match r with
  | Some (Returned v, h, t) => after t (k v h)
  | Some (Raised e, h, t) => Some (Raised e, h, t)
  | None => None
  end.

Definition or_else (r : option result) (k : exn -> Heap -> option result)
  : option result :=
  match r with
  | Some (Returned v, h, t) => Some (Returned v, h, t)
  | Some (Raised e, h, t) => after t (k e h)
  | None => None
  end.

(** [run invoke_callee p h] executes [p] on heap [h]; calls are answered
    by [invoke_callee]. *)
Fixpoint run (invoke_callee : obj -> list obj -> Heap -> option result)
    (p : prog) (h : Heap) : option result :=
  match p with
  | Ret v => Some (Returned v, h, [])
  | Raise e => Some (Raised e, h, [])
  | Get k => run invoke_callee (k h) h
  | Put h' k => run invoke_callee k h'
  | Call f args k =>
      and_then (after [Called f args h] (invoke_callee f args h))
               (fun v h' => run invoke_callee (k v) h')
  | Try p' handler k =>
      and_then (or_else (run invoke_callee p' h)
                        (fun e h' => run invoke_callee (handler e) h'))
               (fun v h' => run invoke_callee (k v) h')
  end.

(** [inv2] answers every call that [inv1] answers, and in the same way. *)
Definition answers_more
    (inv1 inv2 : obj -> list obj -> Heap -> option result) : Prop :=
  forall f args h res, inv1 f args h = Some res -> inv2 f args h = Some res.

(** ** Calling convention *)

(** Positional arguments [args] against the positional parameters [ps]:
    arguments fill the parameters from the left, a parameter left without
    an argument takes its default, surplus arguments need [*args]. *)
Fixpoint bind_positional (ps : list parameter) (args : list obj)
    (var_positional : bool) : option (list obj) :=
  match ps with
  | [] =>
      match args with
      | [] => Some []
      | _ :: _ => if var_positional then Some args else None
      end
  | p :: ps' =>
      match args with
      | a :: args' =>
          option_map (cons a) (bind_positional ps' args' var_positional)
      | [] =>
          match default p with
          | Some d => option_map (cons d) (bind_positional ps' [] var_positional)
          | None => None
          end
      end
  end.

(** A call with positional arguments only: a keyword-only parameter must
    have a default. *)
Definition bind_arguments (params : list parameter) (args : list obj)
  : option (list obj) :=
  if forallb (fun p => negb (is_keyword_only p) || has_default p) params
  then bind_positional (filter (fun p => is_positional p = true) params) args
                       (existsb is_var_positional params)
  else None.

(** ** The source functions *)

(** The function table: what each [User name] stands for. *)
Variable functions : string -> pyfunction.

Definition required (name : string) : parameter :=
  Param name POSITIONAL_OR_KEYWORD None.
Definition optional (name : string) (d : obj) : parameter :=
  Param name POSITIONAL_OR_KEYWORD (Some d).

(** [inspect.signature]: the parameters of a callable; [TypeError] for an
    object that is not callable.  The closures have the signatures the
    source declares: [middleware(ctx, nxt)],
    [chained_middleware(ctx, nxt=None)], [composed(ctx, nxt=None)]. *)
Definition inspect_signature (unknown : obj) : res (list parameter) :=
  match unknown with
  | PyNone | Ctx _ => Error (TypeError NotCallable)
  | User name => Ok (parameters (functions name))
  | Closure_middleware _ => Ok [required "ctx"; required "nxt"]
  | Closure_chained_middleware _ _ => Ok [required "ctx"; optional "nxt" PyNone]
  | Closure_composed _ => Ok [required "ctx"; optional "nxt" PyNone]
  end.

(** [_is_handler]:
<<
  signature = inspect.signature(unknown)
  params = signature.parameters
  positional = [name for name, param in params.items()
                if param.default == inspect.Parameter.empty]
  return len(positional) == 1
>> *)
Definition _is_handler (unknown : obj) : res bool :=
  match inspect_signature unknown with
  | Error e => Error e
  | Ok params =>
      let positional :=
        map pname (filter (fun param => default param = None) params) in
      Ok (Nat.eqb (length positional) 1)
  end.

(** [_convert_to_middleware]: a handler becomes the closure [middleware],
    anything else is returned as it is. *)
Definition _convert_to_middleware (handler : obj) : res obj :=
  match _is_handler handler with
  | Error e => Error e
  | Ok false => Ok handler
  | Ok true => Ok (Closure_middleware handler)
  end.

(** Body of the closure [middleware]:
<<
  context = await handler(ctx)
  return await nxt(context) if nxt else context
>> *)
Definition middleware (handler : obj) (ctx nxt : obj) : prog :=
  context <- call handler [ctx] ;;
  if truthy nxt then call nxt [context] else Ret context.

(** Body of the closure [chained_middleware]:
<<
  result = (await nxt(ctx)) if nxt is not None else ctx
  output_context = await cur(result, acc_next)
  if not output_context:
      return result
  return output_context
>> *)
Definition chained_middleware (cur acc_next : obj) (ctx nxt : obj) : prog :=
  result <- (if negb (is_None nxt) then call nxt [ctx] else Ret ctx) ;;
  output_context <- call cur [result; acc_next] ;;
  if negb (truthy output_context) then Ret result else Ret output_context.

Definition reduce_chain (acc_next cur : obj) : obj :=
  Closure_chained_middleware cur acc_next.

(** Body of the closure [composed]:
<<
  last_middleware = nxt
  middleware_chain = functools.reduce(reduce_chain, reversed(middlewares),
                                      last_middleware)
  return await middleware_chain(ctx)
>> *)
Definition composed (middlewares : list obj) (ctx nxt : obj) : prog :=
  let last_middleware := nxt in
  let middleware_chain :=
    fold_left reduce_chain (rev middlewares) last_middleware in
  call middleware_chain [ctx].

(** The list comprehension of [compose_middleware]: the first conversion
    that raises ends it. *)
Fixpoint convert_all (middlewares : list obj) : res (list obj) :=
  match middlewares with
  | [] => Ok []
  | m :: rest =>
      match _convert_to_middleware m with
      | Error e => Error e
      | Ok m' =>
          match convert_all rest with
          | Error e => Error e
          | Ok rest' => Ok (m' :: rest')
          end
      end
  end.

Definition compose_middleware (middlewares : list obj) : res obj :=
  match convert_all middlewares with
  | Error e => Error e
  | Ok middlewares' => Ok (Closure_composed middlewares')
  end.

(** ** Calls *)

(** The code a callable runs once its arguments are bound. *)
Definition code (f : obj) (bound : list obj) : prog :=
  match f, bound with
  | User name, _ => body (functions name) bound
  | Closure_middleware handler, [ctx; nxt] => middleware handler ctx nxt
  | Closure_chained_middleware cur acc_next, [ctx; nxt] =>
      chained_middleware cur acc_next ctx nxt
  | Closure_composed middlewares, [ctx; nxt] => composed middlewares ctx nxt
  | _, _ => Raise (TypeError BadArguments)
  end.

(** [f( *args)]: [TypeError] unless [f] is callable and [args] fit its
    signature. *)
Definition call_body (f : obj) (args : list obj) : prog :=
  match inspect_signature f with
  | Error e => Raise e
  | Ok params =>
      match bind_arguments params args with
      | Some bound => code f bound
      | None => Raise (TypeError BadArguments)
      end
  end.

(** [invoke fuel f args h]: the call [await f( *args)] on heap [h], with
    calls nested at most [fuel] deep. *)
Fixpoint invoke (fuel : nat) (f : obj) (args : list obj) (h : Heap)
  : option result :=
  match fuel with
  | O => None
  | S fuel' => run (invoke fuel') (call_body f args) h
  end.

(** [f( *args)] on heap [h] ends as [r]. *)
Definition evaluates (f : obj) (args : list obj) (h : Heap) (r : result)
  : Prop :=
  exists fuel, invoke fuel f args h = Some r.

(** ** Vocabulary of the statements *)

(** What [functools.reduce(reduce_chain, reversed(middlewares), last)]
    builds, written from the first middleware inwards. *)
Definition chain (middlewares : list obj) (last_middleware : obj) : obj :=
  foldr Closure_chained_middleware last_middleware middlewares.

(** The value a chained step returns when [cur] returned [output_context]
    on [result]. *)
Definition passthrough (result output_context : obj) : obj :=
  if negb (truthy output_context) then result else output_context.

(** Signature of a middleware written [async def m(ctx, nxt)]. *)
Definition middleware_signature : list parameter :=
  [required "ctx"; required "nxt"].

(** Signature of a handler written [async def h(ctx)]. *)
Definition handler_signature : list parameter := [required "ctx"].

(** A middleware that pre-processes and forwards:
<<
  async def m(ctx, nxt):
      ctx = pre(ctx)          # may update the heap
      return await nxt(ctx)
>> *)
Definition forwarding (pre : obj -> Heap -> obj * Heap) (bound : list obj)
  : prog :=
  match bound with
  | [ctx; nxt] =>
      Get (fun h => let '(ctx', h') := pre ctx h in
                    Put h' (call nxt [ctx']))
  | _ => Raise (TypeError BadArguments)
  end.

Definition forwarder (pre : obj -> Heap -> obj * Heap) : pyfunction :=
  Def middleware_signature (forwarding pre).

(** The names of the user functions called, in the order of the calls. *)
Definition user_calls (t : list event) : list string :=
  omap (fun ev => match ev with
                  | Called (User name) _ _ => Some name
                  | _ => None
                  end) t.

(** The heap on which the user function [name] was first called. *)
Fixpoint observed (name : string) (t : list event) : option Heap :=
  match t with
  | [] => None
  | Called (User name') _ h :: t' =>
      if String.eqb name name' then Some h else observed name t'
  | _ :: t' => observed name t'
  end.

(** [callable(m)]. *)
Definition callable (m : obj) : bool :=
  match inspect_signature m with
  | Ok _ => true
  | Error _ => false
  end.

(** The number of parameters without default, which [_is_handler] compares
    with 1. *)
Definition no_default_count (params : list parameter) : nat :=
  length (filter (fun param => default param = None) params).

(** The number of required positional parameters, in the words of the
    specification: the positional parameters that have no default. *)
Definition required_positional_count (params : list parameter) : nat :=
  length (filter (fun param => is_positional param = true
                               /\ default param = None) params).

(** [g] applied to the value returned, if the run returned. *)
Definition map_returned (g : obj -> obj) (r : option result) : option result :=
  match r with
  | Some (Returned v, h, t) => Some (Returned (g v), h, t)
  | _ => r
  end.

(** *** A chain of forwarding middleware

    [fs] lists, in declaration order, the name and the pre-processing of
    each middleware. *)
Definition pre_processing : Type := obj -> Heap -> obj * Heap.

Definition middlewares_of (fs : list (string * pre_processing)) : list obj :=
  map (fun f => User f.1) fs.

(** The pre-processing steps applied in declaration order: the context and
    the heap that the last of them hands on. *)
Fixpoint pre_pass (fs : list (string * pre_processing)) (ctx : obj) (h : Heap)
  : obj * Heap :=
  match fs with
  | [] => (ctx, h)
  | (_, pre) :: fs' => pre_pass fs' (pre ctx h).1 (pre ctx h).2
  end.

(** The context each middleware receives. *)
Fixpoint pre_pass_inputs (fs : list (string * pre_processing)) (ctx : obj)
    (h : Heap) : list obj :=
  match fs with
  | [] => []
  | (_, pre) :: fs' => ctx :: pre_pass_inputs fs' (pre ctx h).1 (pre ctx h).2
  end.

(** The calls made on the way in: the chained step calls its middleware,
    which calls its next. *)
Fixpoint pre_pass_events (fs : list (string * pre_processing))
    (last_middleware : obj) (ctx : obj) (h : Heap) : list event :=
  match fs with
  | [] => []
  | (name, pre) :: fs' =>
      let acc_next := chain (middlewares_of fs') last_middleware in
      Called (User name) [ctx; acc_next] h
      :: Called acc_next [(pre ctx h).1] (pre ctx h).2
      :: pre_pass_events fs' last_middleware (pre ctx h).1 (pre ctx h).2
  end.

(** Each name of [fs] is bound to the forwarding function written next to
    it. *)
Definition forwarders (fs : list (string * pre_processing)) : Prop :=
  Forall (fun f => functions f.1 = forwarder f.2) fs.

(** The value handed back through the chained steps, innermost first. *)
Definition unwind (inputs : list obj) (v : obj) : obj :=
  foldr passthrough v inputs.

End Python.

Arguments obj : clear implicits.
Arguments exn : clear implicits.
Arguments res : clear implicits.
Arguments parameter : clear implicits.
Arguments prog : clear implicits.
Arguments pyfunction : clear implicits.
Arguments event : clear implicits.
Arguments outcome : clear implicits.
Arguments result : clear implicits.

(** ** [HttpResponse]

    [str.encode("utf-8")] and [json.dumps] are library functions; they are
    taken as they come, with the exceptions they may raise.  [Other] is the
    type of the values that are neither [str] nor [bytes]. *)

Section HttpResponse.

Context {Err Other : Type}.
Variable encode_utf8 : string -> res Err (list Byte.byte).
Variable json_dumps : Other -> res Err string.
Variable truthy_other : Other -> bool.

Inductive value : Type :=
| VStr (s : string)
| VBytes (b : list Byte.byte)
| VOther (o : Other).

Definition truthy_value (v : value) : bool :=
  match v with
  | VStr s => negb (String.eqb s EmptyString)
  | VBytes b => negb (Nat.eqb (length b) 0)
  | VOther o => truthy_other o
  end.

(** A header is a string or a list of strings
    ([Record = Dict[str, Union[str, List[str]]]]). *)
Inductive header_value : Type :=
| HStr (s : string)
| HList (l : list string).

Record HttpResponse : Type := mkHttpResponse {
  status : Z;
  headers : gmap string header_value;
  _body : value
}.

(** [__init__]:
<<
    self.status = status
    self.headers = headers if headers else {}
    self._body = body if body else bytes()
>> *)
Definition HttpResponse_init (status : Z)
    (headers : option (gmap string header_value)) (body : option value)
  : HttpResponse :=
  {| status := status;
     headers := match headers with
                | Some hs => if decide (hs = ∅) then ∅ else hs
                | None => ∅
                end;
     _body := match body with
              | Some v => if truthy_value v then v else VBytes []
              | None => VBytes []
              end |}.

(** The property [body]. *)
Definition body_get (self : HttpResponse) : value := _body self.

(** The setter of [body]:
<<
    if isinstance(value, str):
        self._body = value.encode("utf-8")
    elif isinstance(value, bytes):
        self._body = value
    else:
        self._body = json.dumps(value).encode("utf-8")
        self.headers["Content-Type"] = ["application/json"]
>> *)
Definition body_set (self : HttpResponse) (v : value) : res Err HttpResponse :=
  match v with
  | VStr s =>
      match encode_utf8 s with
      | Error e => Error e
      | Ok b => Ok {| status := status self; headers := headers self;
                      _body := VBytes b |}
      end
  | VBytes b =>
      Ok {| status := status self; headers := headers self; _body := VBytes b |}
  | VOther o =>
      match json_dumps o with
      | Error e => Error e
      | Ok s =>
          match encode_utf8 s with
          | Error e => Error e
          | Ok b =>
              Ok {| status := status self;
                    headers := <["Content-Type" := HList ["application/json"]]>
                                 (headers self);
                    _body := VBytes b |}
          end
      end
  end.

End HttpResponse.

Arguments value : clear implicits.
Arguments HttpResponse : clear implicits.

(** ** Concrete functions

    The contexts are numbered objects; every context is true. *)

Definition always_true (c : nat) : bool := true.

(** *** Logging middleware

    The heap is the shared log.
<<
    async def A(ctx, nxt):
        log.append("A")
        return await nxt(ctx) if nxt else ctx
>> *)
Module Logging.

Definition heap : Type := list string.

Definition logger (tag : string) (bound : list (obj nat))
  : prog nat heap string :=
  match bound with
  | [ctx; nxt] =>
      Get (fun log =>
             Put (log ++ [tag])
                 (if truthy always_true nxt then call nxt [ctx] else Ret ctx))
  | _ => Raise (TypeError BadArguments)
  end.

(** [async def A(ctx, nxt): log.append("A"); return await nxt(ctx)] *)
Definition log_tag (tag : string) : pre_processing (C:=nat) (Heap:=heap) :=
  fun ctx log => (ctx, log ++ [tag]).

(** [async def done(ctx): return ctx] *)
Definition done_ (bound : list (obj nat)) : prog nat heap string :=
  match bound with
  | [ctx] => Ret ctx
  | _ => Raise (TypeError BadArguments)
  end.

Definition functions (name : string) : pyfunction nat heap string :=
  if String.eqb name "A" then Def middleware_signature (logger "A")
  else if String.eqb name "B" then Def middleware_signature (logger "B")
  else if String.eqb name "first" then forwarder (log_tag "first")
  else if String.eqb name "second" then forwarder (log_tag "second")
  else if String.eqb name "third" then forwarder (log_tag "third")
  else Def handler_signature done_.

End Logging.

(** The order the specification describes: the user functions are called
    last-declared first. *)
Definition last_declared_runs_first {C Heap : Type} (names : list string)
    (t : list (event C Heap)) : Prop :=
  user_calls t = rev names.

(** *** Counting middleware and others

    The heap holds the field [counter] of each context object. *)
Module Counter.

Definition heap : Type := gmap nat Z.

(** [ctx.counter += k], then the rest. *)
Definition add_counter (k : Z) (ctx : obj nat) (rest : prog nat heap string)
  : prog nat heap string :=
  match ctx with
  | Ctx l =>
      Get (fun h => match h !! l with
                    | Some c => Put (<[l := (c + k)%Z]> h) rest
                    | None => Raise (Exception "AttributeError")
                    end)
  | _ => Raise (Exception "AttributeError")
  end.

(** [async def inc(ctx, nxt): ctx.counter += k; return await nxt(ctx)] *)
Definition inc (k : Z) (bound : list (obj nat)) : prog nat heap string :=
  match bound with
  | [ctx; nxt] => add_counter k ctx (call nxt [ctx])
  | _ => Raise (TypeError BadArguments)
  end.

(** The same, calling [nxt] only if there is one:
    [return await nxt(ctx) if nxt else ctx]. *)
Definition inc_guarded (k : Z) (bound : list (obj nat)) : prog nat heap string :=
  match bound with
  | [ctx; nxt] =>
      add_counter k ctx (if truthy always_true nxt then call nxt [ctx] else Ret ctx)
  | _ => Raise (TypeError BadArguments)
  end.

(** [async def terminal(ctx): return ctx] *)
Definition terminal (bound : list (obj nat)) : prog nat heap string :=
  match bound with
  | [ctx] => Ret ctx
  | _ => Raise (TypeError BadArguments)
  end.

(** [async def replace(ctx, nxt): await nxt(ctx); return other], where
    [other] is the context object number 1. *)
Definition replace (bound : list (obj nat)) : prog nat heap string :=
  match bound with
  | [ctx; nxt] => Call nxt [ctx] (fun _ => Ret (Ctx 1))
  | _ => Raise (TypeError BadArguments)
  end.

(** [async def later(ctx, nxt): return await nxt(ctx)] pre-processes
    nothing. *)
Definition keep : pre_processing (C:=nat) (Heap:=heap) := fun ctx h => (ctx, h).

(** [async def stop(ctx, nxt): return None] *)
Definition stop (bound : list (obj nat)) : prog nat heap string := Ret PyNone.

(** [async def guard(ctx, nxt):
       try: return await nxt(ctx)
       except Exception: return ctx] *)
Definition guard (bound : list (obj nat)) : prog nat heap string :=
  match bound with
  | [ctx; nxt] => Try (call nxt [ctx]) (fun _ => Ret ctx) Ret
  | _ => Raise (TypeError BadArguments)
  end.

(** [async def fail(ctx, nxt): raise Exception("boom")] *)
Definition fail_ (bound : list (obj nat)) : prog nat heap string :=
  Raise (Exception "boom").

(** [async def set_five(ctx): ctx.counter = 5], a handler that returns
    nothing. *)
Definition set_five (bound : list (obj nat)) : prog nat heap string :=
  match bound with
  | [Ctx l] => Get (fun h => Put (<[l := 5%Z]> h) (Ret PyNone))
  | _ => Raise (Exception "AttributeError")
  end.

Definition functions (name : string) : pyfunction nat heap string :=
  if String.eqb name "inc1" then Def middleware_signature (inc 1)
  else if String.eqb name "inc2" then Def middleware_signature (inc 2)
  else if String.eqb name "inc2_guarded" then
    Def middleware_signature (inc_guarded 2)
  else if String.eqb name "replace" then Def middleware_signature replace
  else if String.eqb name "stop" then Def middleware_signature stop
  else if String.eqb name "later" then forwarder keep
  else if String.eqb name "guard" then Def middleware_signature guard
  else if String.eqb name "fail" then Def middleware_signature fail_
  else if String.eqb name "set_five" then Def handler_signature set_five
  (* [async def no_params(): return None] *)
  else if String.eqb name "no_params" then Def [] (fun _ => Ret PyNone)
  (* [async def three(a, b, c): return a] *)
  else if String.eqb name "three" then
    Def [required "a"; required "b"; required "c"]
        (fun bound => match bound with a :: _ => Ret a | [] => Ret PyNone end)
  (* [async def with_kwargs(ctx, **kwargs): return ctx] *)
  else if String.eqb name "with_kwargs" then
    Def [required "ctx"; Param "kwargs" VAR_KEYWORD None]
        (fun bound => match bound with ctx :: _ => Ret ctx | [] => Ret PyNone end)
  else Def handler_signature terminal.

(** [ctx0]: the context object number 0, whose counter is 0. *)
Definition ctx0 : obj nat := Ctx 0.
Definition heap0 : heap := {[ 0 := 0%Z ]}.

End Counter.

(** *** A response body

    Strings of ASCII characters, which UTF-8 encodes as their bytes, and
    booleans as the other values, with their JSON encoding. *)
Module Body.

Definition encode_ascii (s : string) : res string (list Byte.byte) :=
  Ok (String.list_byte_of_string s).

Definition dumps_bool (b : bool) : res string string :=
  Ok (if b then "true" else "false").

Definition response : HttpResponse bool :=
  HttpResponse_init (fun b => b) 200 None None.

End Body.

(** ** Further vocabulary *)

(** How a run ended and the heap it left, without the calls it made. *)
Definition outcome_of {C Heap Err : Type} (r : option (result C Heap Err))
  : option (outcome C Err * Heap) :=
  match r with
  | Some (o, h, _) => Some (o, h)
  | None => None
  end.

(** ** Sequences of assignments to [body] *)

Section Assignments.

Context {Err Other : Type}.
Variable encode_utf8 : string -> res Err (list Byte.byte).
Variable json_dumps : Other -> res Err string.

(** [self.body = v] for each [v] of [vs] in turn; the first assignment that
    raises ends the sequence. *)
Fixpoint assign_all (self : HttpResponse Other) (vs : list (value Other))
  : res Err (HttpResponse Other) :=
  match vs with
  | [] => Ok self
  | v :: vs' =>
      match body_set encode_utf8 json_dumps self v with
      | Error e => Error e
      | Ok self' => assign_all self' vs'
      end
  end.

End Assignments.

(** ** [HttpRequest]

    [bytes.decode("utf-8")] and [json.loads] are library functions, taken
    with the exceptions they may raise; [Json] is the type of the values
    that [json.loads] returns, [None] among them. *)
Module Request.

Section HttpRequest.

Context {Err Json : Type}.
Variable decode_utf8 : list Byte.byte -> res Err string.
Variable json_loads : string -> res Err Json.
Variable none : Json.
(** [isinstance(e, json.JSONDecodeError)] *)
Variable is_JSONDecodeError : Err -> bool.

Record HttpRequest : Type := mkHttpRequest {
  data : list Byte.byte;
  method : string;
  path : string;
  params : gmap string string;
  query : gmap string header_value;
  headers : gmap string header_value
}.

(** The property [body]: [self.data.decode("utf-8")]. *)
Definition body (self : HttpRequest) : res Err string :=
  decode_utf8 (data self).

(** The property [json]:
<<
    try:
        return json.loads(self.body)
    except json.JSONDecodeError:
        return None
    except TypeError:
        return None
>> *)
Definition json (self : HttpRequest) : res Err Json :=
  let attempt :=
    match body self with
    | Error e => Error e
    | Ok text => json_loads text
    end in
  match attempt with
  | Ok v => Ok v
  | Error (TypeError _) => Ok none
  | Error (Exception e) =>
      if is_JSONDecodeError e then Ok none else Error (Exception e)
  end.

End HttpRequest.

End Request.

(** ** [nitric/faas/trigger.py] *)

Module Faas.

(** *** Strings

    A [str] is a string of characters with code points below 256. *)

(** [c.lower()]: the letters [A]-[Z] and the capital letters of Latin-1
    (192 to 222, the sign 215 apart) move 32 places up. *)
Definition lower_char (c : Ascii.ascii) : Ascii.ascii :=
  let n := Ascii.nat_of_ascii c in
  if (Nat.leb 65 n && Nat.leb n 90)
     || (Nat.leb 192 n && Nat.leb n 222 && negb (Nat.eqb n 215))
  then Ascii.ascii_of_nat (n + 32)
  else c.

(** [s.lower()] *)
Fixpoint lower (s : string) : string :=
  match s with
  | EmptyString => EmptyString
  | String c s' => String (lower_char c) (lower s')
  end.

(** [s.startswith(old)] *)
Fixpoint startswith (old s : string) : bool :=
  match old, s with
  | EmptyString, _ => true
  | String a old', String b s' => Ascii.eqb a b && startswith old' s'
  | String _ _, EmptyString => false
  end.

(** Replacement from left to right; [skip] counts the characters of a
    replaced occurrence that are still to be passed over. *)
Fixpoint replace_from (old new : string) (skip : nat) (s : string) : string :=
  match s with
  | EmptyString => EmptyString
  | String c s' =>
      match skip with
      | S k => replace_from old new k s'
      | O =>
          if startswith old s
          then new ++ replace_from old new (String.length old - 1) s'
          else String c (replace_from old new 0 s')
      end
  end.

Fixpoint interleave (new s : string) : string :=
  match s with
  | EmptyString => EmptyString
  | String c s' => String c (new ++ interleave new s')
  end.

(** [s.replace(old, new)]: every occurrence of [old], found from left to
    right without overlap, becomes [new]; an empty [old] occurs before each
    character and at the end. *)
Definition replace (old new s : string) : string :=
  match old with
  | EmptyString => new ++ interleave new s
  | String _ _ => replace_from old new 0 s
  end.

(** [old in s] *)
Fixpoint occurs (old s : string) : bool :=
  startswith old s
  || match s with
     | EmptyString => false
     | String _ s' => occurs old s'
     end.

(** [_clean_header]:
<<
    return header_name.lower().replace("x-nitric-", "").replace("-", "_")
>> *)
Definition _clean_header (header_name : string) : string :=
  replace "-" "_" (replace "x-nitric-" EmptyString (lower header_name)).

(** *** Trigger contexts *)

Record HttpTriggerContext : Type := mkHttpTriggerContext {
  method : string;
  headers : gmap string string;
  path_params : gmap string string;
  query_params : gmap string string
}.

Record TopicTriggerContext : Type := mkTopicTriggerContext {
  topic : string
}.

(** The object a [TriggerContext] holds, with its class: one of the two
    classes of the annotation, or a [TriggerContext] again. *)
Inductive held : Type :=
| Http (c : HttpTriggerContext)
| Topic (c : TopicTriggerContext)
| Nested (inner : held).

Record TriggerContext : Type := mkTriggerContext {
  context : held
}.














(** A [Trigger]; its context is [None] when
    [TriggerContext.from_trigger_request] returned [None]. *)
Record Trigger : Type := mkTrigger {
  trigger_context : option TriggerContext;
  data : list Byte.byte
}.

Definition get_body (self : Trigger) : list Byte.byte := data self.





End Faas.

(** ** Calls that no [try] block protects *)

Section Uncaught.

Context {C Heap Err : Type}.
Variable truthy_ctx : C -> bool.
Variable functions : string -> pyfunction C Heap Err.

(** [calls_outside_try inv p h f args hf]: run on the heap [h], with its
    calls answered by [inv], the body [p] itself (not one of its callees)
    makes the call [f( *args)] on the heap [hf], and makes it outside the
    protected part of every [try] block of [p]: before the block, after it,
    or in its [except] clause. *)
Inductive calls_outside_try
    (inv : obj C -> list (obj C) -> Heap -> option (result C Heap Err))
  : prog C Heap Err -> Heap -> obj C -> list (obj C) -> Heap -> Prop :=
| outside_get k h f args hf :
    calls_outside_try inv (k h) h f args hf ->
    calls_outside_try inv (Get k) h f args hf
| outside_put h0 k h f args hf :
    calls_outside_try inv k h0 f args hf ->
    calls_outside_try inv (Put h0 k) h f args hf
| outside_call f args k h :
    calls_outside_try inv (Call f args k) h f args h
| outside_after_call g args0 k h v h1 t1 f args hf :
    inv g args0 h = Some (Returned v, h1, t1) ->
    calls_outside_try inv (k v) h1 f args hf ->
    calls_outside_try inv (Call g args0 k) h f args hf
| outside_except p handler k h e h1 t1 f args hf :
    run inv p h = Some (Raised e, h1, t1) ->
    calls_outside_try inv (handler e) h1 f args hf ->
    calls_outside_try inv (Try p handler k) h f args hf
| outside_after_try p handler k h v h1 t1 f args hf :
    or_else (run inv p h) (fun e h0 => run inv (handler e) h0)
    = Some (Returned v, h1, t1) ->
    calls_outside_try inv (k v) h1 f args hf ->
    calls_outside_try inv (Try p handler k) h f args hf.

(** [reaches_next fuel ms rest ctx h k ctx' h']: in the chain of [ms]
    followed by [rest], called on [ctx] and [h] with [fuel], every
    middleware of [ms], called by its chained step on what the one before
    handed on, calls its next outside its [try] blocks, so that [rest] is
    called on [ctx'] and [h'], with the fuel [k]. *)
Inductive reaches_next
  : nat -> list (obj C) -> obj C -> obj C -> Heap -> nat -> obj C -> Heap
    -> Prop :=
| reaches_here fuel rest ctx h :
    reaches_next fuel [] rest ctx h fuel ctx h
| reaches_through fuel m ms rest ctx h ctx1 h1 k ctx' h' :
    calls_outside_try (invoke truthy_ctx functions fuel)
      (call_body truthy_ctx functions m [ctx; chain ms rest]) h
      (chain ms rest) [ctx1] h1 ->
    reaches_next fuel ms rest ctx1 h1 k ctx' h' ->
    reaches_next (S (S fuel)) (m :: ms) rest ctx h k ctx' h'.

End Uncaught.

(** * Properties *)

(** ** The interpreter *)

Section Execution.

Context {C Heap Err : Type}.
Implicit Types (r : option (result C Heap Err)) (t : list (event C Heap)).

Lemma after_nil r : after [] r = r.
Proof. by destruct r as [[[o h] t]|]. Qed.

Lemma after_after t1 t2 r : after t1 (after t2 r) = after (t1 ++ t2) r.
Proof. destruct r as [[[o h] t]|]; simpl; [|done]. by rewrite app_assoc. Qed.

Lemma after_Some t r o h t' :
  after t r = Some (o, h, t') ->
  exists t0, r = Some (o, h, t0) /\ t' = t ++ t0.
Proof.
  destruct r as [[[o0 h0] t0]|]; simpl; [|done].
  intros [= -> -> <-]. by exists t0.
Qed.

Lemma after_Some' t r res :
  after t r = Some res ->
  exists t0, r = Some (res.1.1, res.1.2, t0) /\ res = (res.1.1, res.1.2, t ++ t0).
Proof.
  destruct res as [[o h] t']. intros [t0 [-> ->]]%after_Some. by exists t0.
Qed.

Lemma and_then_return r :
  and_then r (fun v h => Some (Returned v, h, [])) = r.
Proof.
  destruct r as [[[[v|e] h] t]|]; simpl; [|done..].
  by rewrite app_nil_r.
Qed.

Lemma and_then_ext r k1 k2 :
  (forall v h, k1 v h = k2 v h) -> and_then r k1 = and_then r k2.
Proof.
  intros Hk. destruct r as [[[[v|e] h] t]|]; simpl; [|done..].
  by rewrite Hk.
Qed.

Lemma and_then_map_returned r (g : obj C -> obj C) :
  and_then r (fun v h => Some (Returned (g v), h, [])) = map_returned g r.
Proof.
  destruct r as [[[[v|e] h] t]|]; simpl; [|done..].
  by rewrite app_nil_r.
Qed.

Lemma map_returned_after (g : obj C -> obj C) t r :
  map_returned g (after t r) = after t (map_returned g r).
Proof. by destruct r as [[[[v|e] h] t0]|]. Qed.

Lemma map_returned_compose (g1 g2 : obj C -> obj C) r :
  map_returned g1 (map_returned g2 r) = map_returned (fun v => g1 (g2 v)) r.
Proof. by destruct r as [[[[v|e] h] t0]|]. Qed.

Lemma and_then_mono r1 r2 k1 k2 res :
  (forall res', r1 = Some res' -> r2 = Some res') ->
  (forall v h res', k1 v h = Some res' -> k2 v h = Some res') ->
  and_then r1 k1 = Some res -> and_then r2 k2 = Some res.
Proof.
  intros Hr Hk. destruct r1 as [res1|]; [|done].
  rewrite (Hr _ eq_refl). destruct res1 as [[[v|e] h] t]; simpl; [|done].
  destruct (k1 v h) as [[[o1 h1] t1]|] eqn:E1; simpl; [|done].
  by rewrite (Hk _ _ _ E1).
Qed.

Lemma or_else_mono r1 r2 k1 k2 res :
  (forall res', r1 = Some res' -> r2 = Some res') ->
  (forall e h res', k1 e h = Some res' -> k2 e h = Some res') ->
  or_else r1 k1 = Some res -> or_else r2 k2 = Some res.
Proof.
  intros Hr Hk. destruct r1 as [res1|]; [|done].
  rewrite (Hr _ eq_refl). destruct res1 as [[[v|e] h] t]; simpl; [done|].
  destruct (k1 e h) as [[[o1 h1] t1]|] eqn:E1; simpl; [|done].
  by rewrite (Hk _ _ _ E1).
Qed.

(** [run] never loses a result when its calls are answered more often. *)
Lemma run_mono inv1 inv2 (p : prog C Heap Err) :
  answers_more inv1 inv2 ->
  forall h res, run inv1 p h = Some res -> run inv2 p h = Some res.
Proof.
  intros Hinv. induction p as [v|e|k IH|h' k IH|f args k IH|p IHp hd IHh k IHk];
    intros h res; simpl; try done.
  - apply IH.
  - apply IH.
  - apply and_then_mono.
    + intros res' [t0 [E1 ->]]%after_Some'. by rewrite (Hinv _ _ _ _ E1).
    + intros v h1 res'. apply IH.
  - apply and_then_mono.
    + intros res'. apply or_else_mono; [apply IHp|]. intros e h1 res''. apply IHh.
    + intros v h1 res'. apply IHk.
Qed.

End Execution.

(** ** Calls of the composer's closures *)

Section Composer.

Context {C Heap Err : Type}.
Variable truthy_ctx : C -> bool.
Variable functions : string -> pyfunction C Heap Err.

Local Abbreviation invoke := (invoke truthy_ctx functions).
Local Abbreviation evaluates := (evaluates truthy_ctx functions).
Local Abbreviation truthy := (truthy truthy_ctx).
Local Abbreviation passthrough := (passthrough truthy_ctx).
Local Abbreviation compose_middleware := (compose_middleware functions).
Local Abbreviation _convert_to_middleware := (_convert_to_middleware functions).
Local Abbreviation _is_handler := (_is_handler functions).

Implicit Types (f cur acc_next ctx nxt handler : obj C) (h : Heap).
Implicit Types (middlewares args : list (obj C)).

Lemma invoke_mono n m : n <= m -> answers_more (invoke n) (invoke m).
Proof.
  revert m. induction n as [|n IH]; intros m Hle f args h res; [done|].
  destruct m as [|m]; [lia|]. simpl.
  apply run_mono, IH. lia.
Qed.

Lemma evaluates_det f args h res1 res2 :
  evaluates f args h res1 -> evaluates f args h res2 -> res1 = res2.
Proof.
  intros [n1 H1] [n2 H2].
  apply (invoke_mono n1 (n1 `max` n2)) in H1; [|lia].
  apply (invoke_mono n2 (n1 `max` n2)) in H2; [|lia].
  congruence.
Qed.

Lemma chain_fold middlewares last_middleware :
  fold_left reduce_chain (rev middlewares) last_middleware
  = chain middlewares last_middleware.
Proof.
  unfold chain. rewrite <- (rev_involutive middlewares) at 2.
symmetry. apply (fold_left_rev_right (fun cur acc => reduce_chain acc cur)).
Qed.

Lemma run_call inv f args h :
  run inv (call f args) h
  = after [Called f args h] (inv f args h) :> option (result C Heap Err).
Proof. simpl. apply and_then_return. Qed.

(** [composed(ctx)] and [composed(ctx, nxt)]: the chain is called on [ctx]. *)
Lemma invoke_composed n middlewares ctx nxt h :
  invoke (S n) (Closure_composed middlewares) [ctx; nxt] h
  = after [Called (chain middlewares nxt) [ctx] h]
          (invoke n (chain middlewares nxt) [ctx] h).
Proof.
  change (invoke (S n) _ _ h)
  with (run (invoke n) (composed middlewares ctx nxt) h).
  unfold composed. rewrite chain_fold. apply run_call.
Qed.

Lemma invoke_composed_default n middlewares ctx h :
  invoke (S n) (Closure_composed middlewares) [ctx] h
  = invoke (S n) (Closure_composed middlewares) [ctx; PyNone] h.
Proof. reflexivity. Qed.

(** [chained_middleware(ctx)]: [cur] is called on [ctx] and [acc_next]. *)
Lemma invoke_chained n cur acc_next ctx h :
  invoke (S n) (Closure_chained_middleware cur acc_next) [ctx] h
  = map_returned (passthrough ctx)
      (after [Called cur [ctx; acc_next] h] (invoke n cur [ctx; acc_next] h)).
Proof.
  rewrite <- and_then_map_returned.
  change (invoke (S n) _ _ h)
  with (run (invoke n) (chained_middleware truthy_ctx cur acc_next ctx PyNone) h).
  simpl. apply and_then_ext. intros v h'.
  unfold passthrough. by destruct (truthy v).
Qed.

(** [middleware(ctx, nxt)] of [_convert_to_middleware]. *)
Lemma invoke_middleware n handler ctx nxt h :
  invoke (S n) (Closure_middleware handler) [ctx; nxt] h
  = and_then (after [Called handler [ctx] h] (invoke n handler [ctx] h))
             (fun context h' =>
                if truthy nxt
                then after [Called nxt [context] h'] (invoke n nxt [context] h')
                else Some (Returned context, h', [])).
Proof.
  change (invoke (S n) _ _ h)
  with (run (invoke n) (middleware truthy_ctx handler ctx nxt) h).
  simpl. apply and_then_ext. intros v h'.
  destruct (truthy nxt); simpl; [|done].
  apply and_then_return.
Qed.

Lemma invoke_user n name args h :
  invoke (S n) (User name) args h
  = match bind_arguments (parameters (functions name)) args with
    | Some bound => run (invoke n) (body (functions name) bound) h
    | None => Some (Raised (TypeError BadArguments), h, [])
    end.
Proof.
  simpl. unfold call_body. simpl.
  by destruct (bind_arguments _ _).
Qed.

Lemma invoke_forwarder n name pre ctx nxt h :
  functions name = forwarder pre ->
  invoke (S n) (User name) [ctx; nxt] h
  = after [Called nxt [(pre ctx h).1] (pre ctx h).2]
          (invoke n nxt [(pre ctx h).1] (pre ctx h).2).
Proof.
  intros Hname. rewrite invoke_user, Hname. simpl.
  destruct (pre ctx h) as [ctx' h']. simpl. apply and_then_return.
Qed.

(** *** Chains of forwarding middleware *)

Implicit Types (fs : list (string * pre_processing (C:=C) (Heap:=Heap))).

Local Abbreviation forwarders := (forwarders functions).

Lemma chain_app middlewares middlewares' nxt :
  chain (middlewares ++ middlewares') nxt
  = chain middlewares (chain middlewares' nxt).
Proof. unfold chain. by rewrite foldr_app. Qed.

(** The chain over forwarding middleware runs their pre-processing in
    declaration order, calls the trailing next on what the last one hands
    on, and passes the value returned back through the chained steps. *)
Lemma invoke_chain_forwarders fs nxt n ctx h :
  forwarders fs ->
  invoke (2 * length fs + n) (chain (middlewares_of fs) nxt) [ctx] h
  = map_returned (unwind truthy_ctx (pre_pass_inputs fs ctx h))
      (after (pre_pass_events fs nxt ctx h)
             (invoke n nxt [(pre_pass fs ctx h).1] (pre_pass fs ctx h).2)).
Proof.
  intros Hfs. revert ctx h.
  induction Hfs as [|[name pre] fs Hname Hfs IH]; intros ctx h.
  - simpl. rewrite after_nil. by destruct (invoke n nxt [ctx] h) as [[[[v|e] h'] t]|].
  - assert (Hfuel : forall m, 2 * S m + n = S (S (2 * m + n))) by lia.
    simpl length. rewrite Hfuel.
    change (chain (middlewares_of ((name, pre) :: fs)) nxt)
      with (Closure_chained_middleware (User name) (chain (middlewares_of fs) nxt)).
    rewrite invoke_chained, (invoke_forwarder _ _ pre) by done.
    rewrite IH. simpl.
    rewrite !map_returned_after, map_returned_compose, !after_after.
    reflexivity.
Qed.

Lemma user_calls_pre_pass_events fs nxt ctx h :
  (forall name, nxt <> User name) ->
  user_calls (pre_pass_events fs nxt ctx h) = fs.*1.
Proof.
  intros Hnxt. revert ctx h. induction fs as [|[name pre] fs IH]; intros ctx h; [done|].
  simpl. rewrite IH. destruct fs as [|[name' pre'] fs]; simpl; [|done].
  destruct nxt; try done. by destruct (Hnxt name0).
Qed.

Lemma pre_pass_events_lookup fs nxt ctx h j name pre :
  fs !! j = Some (name, pre) ->
  pre_pass_events fs nxt ctx h !! (2 * j)
  = Some (Called (User name)
            [(pre_pass (take j fs) ctx h).1;
             chain (middlewares_of (drop (S j) fs)) nxt]
            (pre_pass (take j fs) ctx h).2).
Proof.
  revert j ctx h. induction fs as [|[name0 pre0] fs IH]; intros j ctx h; [done|].
  destruct j as [|j]; simpl.
  - by intros [= -> ->].
  - intros Hj. replace (j + S (j + 0)) with (S (2 * j)) by lia.
    simpl. by apply IH.
Qed.

Lemma passthrough_falsy ctx v : truthy v = false -> passthrough ctx v = ctx.
Proof. unfold passthrough. by intros ->. Qed.

Lemma passthrough_truthy ctx v : truthy v = true -> passthrough ctx v = v.
Proof. unfold passthrough. by intros ->. Qed.

Lemma unwind_truthy inputs v :
  truthy v = true -> unwind truthy_ctx inputs v = v.
Proof.
  intros Hv. induction inputs as [|c inputs IH]; [done|].
  simpl. rewrite IH. by apply passthrough_truthy.
Qed.

(** Forwarding middleware have two parameters without default: they are
    not handlers and [compose_middleware] keeps them as they are. *)
Lemma convert_forwarder name pre :
  functions name = forwarder pre ->
  _convert_to_middleware (User name) = Ok (User name).
Proof.
  intros Hname. unfold _convert_to_middleware, _is_handler.
  simpl. by rewrite Hname.
Qed.

Lemma convert_all_forwarders fs :
  forwarders fs ->
  convert_all functions (middlewares_of fs) = Ok (middlewares_of fs).
Proof.
  induction 1 as [|[name pre] fs Hname Hfs IH]; [done|].
  simpl. rewrite (convert_forwarder name pre) by done.
  fold (middlewares_of fs). by rewrite IH.
Qed.

(** The composed chain with the forwarding middleware [fs], then [m], then
    [post]: [m] is called on what the pre-processing of [fs], applied in
    declaration order, hands on. *)
Lemma invoke_composed_at fs m post nxt n ctx h :
  forwarders fs ->
  invoke (S (2 * length fs + S n))
         (Closure_composed (middlewares_of fs ++ m :: post)) [ctx; nxt] h
  = map_returned
      (fun out => unwind truthy_ctx (pre_pass_inputs fs ctx h)
                    (passthrough (pre_pass fs ctx h).1 out))
      (after (Called (chain (middlewares_of fs ++ m :: post) nxt) [ctx] h
              :: pre_pass_events fs (chain (m :: post) nxt) ctx h
              ++ [Called m [(pre_pass fs ctx h).1; chain post nxt]
                         (pre_pass fs ctx h).2])
             (invoke n m [(pre_pass fs ctx h).1; chain post nxt]
                     (pre_pass fs ctx h).2)).
Proof.
  intros Hfs. rewrite invoke_composed, chain_app.
  rewrite invoke_chain_forwarders by done.
  change (chain (m :: post) nxt)
    with (Closure_chained_middleware m (chain post nxt)).
  rewrite invoke_chained.
  rewrite !map_returned_after, map_returned_compose, !after_after.
  reflexivity.
Qed.

Lemma user_calls_app (t1 t2 : list (event C Heap)) :
  user_calls (t1 ++ t2) = user_calls t1 ++ user_calls t2.
Proof. unfold user_calls. apply omap_app. Qed.

Lemma user_calls_composed_at fs m post nxt ctx h (t : list (event C Heap)) :
  user_calls (Called (chain (middlewares_of fs ++ m :: post) nxt) [ctx] h
              :: pre_pass_events fs (chain (m :: post) nxt) ctx h ++ t)
  = fs.*1 ++ user_calls t.
Proof.
  transitivity
    (user_calls (pre_pass_events fs (chain (m :: post) nxt) ctx h ++ t)).
  - by destruct fs as [|[name pre] fs].
  - rewrite user_calls_app, user_calls_pre_pass_events; [done|].
    intros name. simpl. discriminate.
Qed.

End Composer.

(** ** Order of execution *)

Section Order.

Context {C Heap Err : Type}.
Variable truthy_ctx : C -> bool.
Variable functions : string -> pyfunction C Heap Err.

Local Abbreviation invoke := (invoke truthy_ctx functions).

(** C1 (as amended).  For every sequence of middleware that pre-process and
    then call their next, [compose_middleware] keeps the sequence, and
    invoking the composed chain runs the pre-processing in declaration
    order: the chain calls the first-declared middleware first, on the
    original context and heap; the middleware at position [j] is called on
    the context and the heap left by the pre-processing of the [j]
    middleware declared before it, in that order; the trailing next is
    called last, and the value it returns is handed back through the
    chained steps. *)
Theorem compose_runs_in_declaration_order
    (fs : list (string * pre_processing)) (nxt ctx : obj C) (h : Heap) :
  forwarders functions fs ->
  compose_middleware functions (middlewares_of fs)
  = Ok (Closure_composed (middlewares_of fs))
  /\ (forall n,
        invoke (S (2 * length fs + n))
               (Closure_composed (middlewares_of fs)) [ctx; nxt] h
        = map_returned (unwind truthy_ctx (pre_pass_inputs fs ctx h))
            (after (Called (chain (middlewares_of fs) nxt) [ctx] h
                    :: pre_pass_events fs nxt ctx h)
                   (invoke n nxt [(pre_pass fs ctx h).1] (pre_pass fs ctx h).2)))
  /\ (forall j name pre,
        fs !! j = Some (name, pre) ->
        pre_pass_events fs nxt ctx h !! (2 * j)
        = Some (Called (User name)
                  [(pre_pass (take j fs) ctx h).1;
                   chain (middlewares_of (drop (S j) fs)) nxt]
                  (pre_pass (take j fs) ctx h).2)).
Proof.
  intros Hfs. split; [|split].
  - unfold compose_middleware. by rewrite convert_all_forwarders.
  - intros n. rewrite invoke_composed, invoke_chain_forwarders by done.
    by rewrite <- map_returned_after, after_after.
  - intros j name pre. apply pre_pass_events_lookup.
Qed.

End Order.

Lemma logging_forwarders :
  forwarders Logging.functions
    [("first", Logging.log_tag "first"); ("second", Logging.log_tag "second");
     ("third", Logging.log_tag "third")].
Proof. repeat constructor. Qed.

Lemma compose_runs_in_declaration_order_witness :
  forwarders Logging.functions
    [("first", Logging.log_tag "first"); ("second", Logging.log_tag "second");
     ("third", Logging.log_tag "third")]
  /\ invoke always_true Logging.functions 8
       (Closure_composed [User "first"; User "second"; User "third"])
       [Ctx 0; User "done"] []
     = Some (Returned (Ctx 0), ["first"; "second"; "third"],
             [Called (chain [User "first"; User "second"; User "third"]
                            (User "done")) [Ctx 0] [];
              Called (User "first")
                     [Ctx 0; chain [User "second"; User "third"] (User "done")] [];
              Called (chain [User "second"; User "third"] (User "done"))
                     [Ctx 0] ["first"];
              Called (User "second")
                     [Ctx 0; chain [User "third"] (User "done")] ["first"];
              Called (chain [User "third"] (User "done"))
                     [Ctx 0] ["first"; "second"];
              Called (User "third") [Ctx 0; User "done"] ["first"; "second"];
              Called (User "done") [Ctx 0] ["first"; "second"; "third"]]).
Proof.
  split; [exact logging_forwarders|].
  destruct (compose_runs_in_declaration_order always_true Logging.functions
              _ (User "done") (Ctx 0) [] logging_forwarders) as (_ & Hrun & _).
  exact (eq_trans (Hrun 1) eq_refl).
Defined.

(** C1 (as stated) fails: with [A] declared before [B], [A] is called
    first, on the empty log, and [B] after it, on the log that [A] has
    written; the log ends as [A], [B]. *)
Lemma last_declared_first_counterexample :
  compose_middleware Logging.functions [User "A"; User "B"]
  = Ok (Closure_composed [User "A"; User "B"])
  /\ exists t,
      evaluates always_true Logging.functions
        (Closure_composed [User "A"; User "B"]) [Ctx 0] []
        (Returned (Ctx 0), ["A"; "B"], t)
      /\ user_calls t = ["A"; "B"]
      /\ observed "A" t = Some []
      /\ observed "B" t = Some ["A"]
      /\ ~ last_declared_runs_first ["A"; "B"] t.
Proof.
  split; [reflexivity|].
  eexists. split; [exists 5; reflexivity|].
  repeat split. unfold last_declared_runs_first. simpl. discriminate.
Qed.

(** C2 (as amended).  [compose_middleware(inc1, inc2)] keeps both middleware
    and, invoked on [ctx0] (counter 0), applies the increment of [inc1]
    first and that of [inc2] second: [inc1] is called while the counter is
    0, [inc2] while it is 1, and the counter ends at 3.  With no trailing
    next, [inc2] then calls its absent next and the invocation raises
    [TypeError]; with a trailing next that returns its context, or when
    [inc2] calls its next only if there is one, the invocation returns
    [ctx0]. *)
Theorem counter_scenario :
  compose_middleware Counter.functions [User "inc1"; User "inc2"]
  = Ok (Closure_composed [User "inc1"; User "inc2"])
  /\ (exists t,
        invoke always_true Counter.functions 6
          (Closure_composed [User "inc1"; User "inc2"])
          [Counter.ctx0] Counter.heap0
        = Some (Raised (TypeError NotCallable), {[ 0 := 3%Z ]}, t)
        /\ user_calls t = ["inc1"; "inc2"]
        /\ observed "inc1" t = Some {[ 0 := 0%Z ]}
        /\ observed "inc2" t = Some {[ 0 := 1%Z ]})
  /\ (exists t,
        invoke always_true Counter.functions 6
          (Closure_composed [User "inc1"; User "inc2"])
          [Counter.ctx0; User "terminal"] Counter.heap0
        = Some (Returned Counter.ctx0, {[ 0 := 3%Z ]}, t)
        /\ user_calls t = ["inc1"; "inc2"; "terminal"]
        /\ observed "inc1" t = Some {[ 0 := 0%Z ]}
        /\ observed "inc2" t = Some {[ 0 := 1%Z ]})
  /\ (exists t,
        invoke always_true Counter.functions 6
          (Closure_composed [User "inc1"; User "inc2_guarded"])
          [Counter.ctx0] Counter.heap0
        = Some (Returned Counter.ctx0, {[ 0 := 3%Z ]}, t)
        /\ user_calls t = ["inc1"; "inc2_guarded"]
        /\ observed "inc1" t = Some {[ 0 := 0%Z ]}
        /\ observed "inc2_guarded" t = Some {[ 0 := 1%Z ]}).
Proof.
  split; [reflexivity|].
  repeat split; eexists; (split; [vm_compute; reflexivity|]); repeat split.
Qed.

(** C2 (as stated) fails: the invocation with no trailing next does not
    yield a context, it raises [TypeError] when [inc2] calls its next; and
    [inc2] is called when the increment of [inc1] is already applied. *)
Lemma counter_scenario_counterexample :
  (exists t,
     evaluates always_true Counter.functions
       (Closure_composed [User "inc1"; User "inc2"])
       [Counter.ctx0] Counter.heap0
       (Raised (TypeError NotCallable), {[ 0 := 3%Z ]}, t)
     /\ observed "inc2" t = Some {[ 0 := 1%Z ]})
  /\ ~ (exists v h t,
          evaluates always_true Counter.functions
            (Closure_composed [User "inc1"; User "inc2"])
            [Counter.ctx0] Counter.heap0 (Returned v, h, t)).
Proof.
  split.
  - eexists. split; [exists 6; vm_compute; reflexivity|reflexivity].
  - intros (v & h & t & Hreturned).
    assert (Hraised : exists t',
      evaluates always_true Counter.functions
        (Closure_composed [User "inc1"; User "inc2"])
        [Counter.ctx0] Counter.heap0
        (Raised (TypeError NotCallable), {[ 0 := 3%Z ]}, t')).
    { eexists. exists 6. vm_compute. reflexivity. }
    destruct Hraised as [t' Hraised].
    by pose proof (evaluates_det _ _ _ _ _ _ _ Hreturned Hraised).
Qed.

(** ** Short circuit and failure *)

Section ShortCircuit.

Context {C Heap Err : Type}.
Variable truthy_ctx : C -> bool.
Variable functions : string -> pyfunction C Heap Err.

Local Abbreviation invoke := (invoke truthy_ctx functions).
Local Abbreviation truthy := (truthy truthy_ctx).

(** C3 (as amended).  In a composed chain whose middleware declared before
    [m] pre-process and return the result of their next, if [m] returns a
    falsy or absent value on the (true) context it is called on, the
    composed invocation returns that context object, on the heap as [m]
    left it, and it calls nothing after [m] has returned: the user
    functions called are the middleware declared before [m], in declaration
    order, then [m], then what [m] itself called. *)
Theorem short_circuit
    (fs : list (string * pre_processing)) (m : obj C) (post : list (obj C))
    (nxt ctx : obj C) (h : Heap) (n : nat)
    (v : obj C) (h' : Heap) (t : list (event C Heap)) :
  forwarders functions fs ->
  invoke n m [(pre_pass fs ctx h).1; chain post nxt] (pre_pass fs ctx h).2
  = Some (Returned v, h', t) ->
  truthy v = false ->
  truthy (pre_pass fs ctx h).1 = true ->
  exists t0,
    invoke (S (2 * length fs + S n))
           (Closure_composed (middlewares_of fs ++ m :: post)) [ctx; nxt] h
    = Some (Returned (pre_pass fs ctx h).1, h', t0)
    /\ t0 = Called (chain (middlewares_of fs ++ m :: post) nxt) [ctx] h
            :: pre_pass_events fs (chain (m :: post) nxt) ctx h
            ++ Called m [(pre_pass fs ctx h).1; chain post nxt]
                      (pre_pass fs ctx h).2 :: t
    /\ user_calls t0
       = fs.*1 ++ user_calls (Called m [(pre_pass fs ctx h).1; chain post nxt]
                                      (pre_pass fs ctx h).2 :: t).
Proof.
  intros Hfs Hm Hv Hctx. eexists. split; [|split; [reflexivity|]].
  - rewrite invoke_composed_at, Hm by done. simpl.
    rewrite passthrough_falsy, unwind_truthy by done.
    by rewrite <- app_assoc.
  - apply user_calls_composed_at.
Qed.

(** After forwarding middleware, the calls are known exactly: when [m]
    raises, the user functions called are the middleware declared before
    [m], in declaration order, then [m], then what [m] itself called. *)
Lemma propagation_through_forwarders
    (fs : list (string * pre_processing)) (m : obj C) (post : list (obj C))
    (nxt ctx : obj C) (h : Heap) (n : nat)
    (e : exn Err) (h' : Heap) (t : list (event C Heap)) :
  forwarders functions fs ->
  invoke n m [(pre_pass fs ctx h).1; chain post nxt] (pre_pass fs ctx h).2
  = Some (Raised e, h', t) ->
  exists t0,
    invoke (S (2 * length fs + S n))
           (Closure_composed (middlewares_of fs ++ m :: post)) [ctx; nxt] h
    = Some (Raised e, h', t0)
    /\ t0 = Called (chain (middlewares_of fs ++ m :: post) nxt) [ctx] h
            :: pre_pass_events fs (chain (m :: post) nxt) ctx h
            ++ Called m [(pre_pass fs ctx h).1; chain post nxt]
                      (pre_pass fs ctx h).2 :: t
    /\ user_calls t0
       = fs.*1 ++ user_calls (Called m [(pre_pass fs ctx h).1; chain post nxt]
                                      (pre_pass fs ctx h).2 :: t).
Proof.
  intros Hfs Hm. eexists. split; [|split; [reflexivity|]].
  - rewrite invoke_composed_at, Hm by done. simpl.
    by rewrite <- app_assoc.
  - apply user_calls_composed_at.
Qed.

End ShortCircuit.

Lemma later_forwarder : forwarders Counter.functions [("later", Counter.keep)].
Proof. repeat constructor. Qed.

Lemma short_circuit_witness :
  forwarders Counter.functions [("later", Counter.keep)]
  /\ invoke always_true Counter.functions 1 (User "stop")
        [Counter.ctx0; chain [User "inc1"] PyNone] Counter.heap0
      = Some (Returned PyNone, Counter.heap0, [])
  /\ exists t0,
       invoke always_true Counter.functions 5
         (Closure_composed [User "later"; User "stop"; User "inc1"])
         [Counter.ctx0; PyNone] Counter.heap0
       = Some (Returned Counter.ctx0, Counter.heap0, t0)
       /\ user_calls t0 = ["later"; "stop"].
Proof.
  split; [exact later_forwarder|]. split; [reflexivity|].
  destruct (short_circuit always_true Counter.functions
              [("later", Counter.keep)] (User "stop") [User "inc1"] PyNone
              Counter.ctx0 Counter.heap0 1 PyNone Counter.heap0 []
              later_forwarder eq_refl eq_refl eq_refl)
    as (t0 & Hrun & _ & Hcalls).
  exists t0. split; [exact Hrun|exact Hcalls].
Defined.

(** C3 (as stated) fails: [stop], declared second, is called on [ctx0] and
    returns [None] without calling its next, yet the composed invocation
    returns another context, the one that [replace], declared first, returns
    after its next has returned. *)
Lemma short_circuit_counterexample :
  compose_middleware Counter.functions
    [User "replace"; User "stop"; User "later"]
  = Ok (Closure_composed [User "replace"; User "stop"; User "later"])
  /\ evaluates always_true Counter.functions (User "stop")
        [Counter.ctx0; chain [User "later"] PyNone] Counter.heap0
        (Returned PyNone, Counter.heap0, [])
  /\ exists t,
       evaluates always_true Counter.functions
         (Closure_composed [User "replace"; User "stop"; User "later"])
         [Counter.ctx0] Counter.heap0 (Returned (Ctx 1), Counter.heap0, t)
       /\ user_calls t = ["replace"; "stop"]
       /\ Called (User "stop") [Counter.ctx0; chain [User "later"] PyNone]
                 Counter.heap0 ∈ t
       /\ ~ (exists h' t',
               evaluates always_true Counter.functions
                 (Closure_composed [User "replace"; User "stop"; User "later"])
                 [Counter.ctx0] Counter.heap0 (Returned Counter.ctx0, h', t')).
Proof.
  split; [reflexivity|]. split; [by exists 1|].
  eexists. split; [exists 5; vm_compute; reflexivity|].
  split; [reflexivity|]. split.
  - do 3 apply list_elem_of_further. apply list_elem_of_here.
  - intros (h' & t' & Hctx0).
    assert (Hother : exists t,
      evaluates always_true Counter.functions
        (Closure_composed [User "replace"; User "stop"; User "later"])
        [Counter.ctx0] Counter.heap0 (Returned (Ctx 1), Counter.heap0, t))
      by (eexists; exists 5; vm_compute; reflexivity).
    destruct Hother as [t Hother].
    by pose proof (evaluates_det _ _ _ _ _ _ _ Hctx0 Hother).
Qed.

(** Recovery is left to the middleware: [guard], declared first, calls its
    next inside a [try] block, catches what [fail] raises and returns its
    context, and the composed invocation returns. *)
Lemma guard_catches_failure :
  compose_middleware Counter.functions [User "guard"; User "fail"]
  = Ok (Closure_composed [User "guard"; User "fail"])
  /\ evaluates always_true Counter.functions (User "fail")
        [Counter.ctx0; PyNone] Counter.heap0
        (Raised (Exception "boom"), Counter.heap0, [])
  /\ (exists t,
        evaluates always_true Counter.functions
          (Closure_composed [User "guard"; User "fail"])
          [Counter.ctx0] Counter.heap0 (Returned Counter.ctx0, Counter.heap0, t)
        /\ Called (User "fail") [Counter.ctx0; PyNone] Counter.heap0 ∈ t)
  /\ ~ (exists e h t,
          evaluates always_true Counter.functions
            (Closure_composed [User "guard"; User "fail"])
            [Counter.ctx0] Counter.heap0 (Raised e, h, t)).
Proof.
  assert (Hreturned : exists t,
    evaluates always_true Counter.functions
      (Closure_composed [User "guard"; User "fail"])
      [Counter.ctx0] Counter.heap0 (Returned Counter.ctx0, Counter.heap0, t)
    /\ Called (User "fail") [Counter.ctx0; PyNone] Counter.heap0 ∈ t).
  { eexists. split; [exists 5; vm_compute; reflexivity|].
    do 3 apply list_elem_of_further. apply list_elem_of_here. }
  split; [reflexivity|]. split; [by exists 1|]. split; [exact Hreturned|].
  intros (e & h & t & Hraised). destruct Hreturned as (t' & Hreturned & _).
  by pose proof (evaluates_det _ _ _ _ _ _ _ Hreturned Hraised).
Qed.

(** ** The adapter and single-element chains *)

Section Adapter.

Context {C Heap Err : Type}.
Variable truthy_ctx : C -> bool.
Variable functions : string -> pyfunction C Heap Err.

Local Abbreviation invoke := (invoke truthy_ctx functions).
Local Abbreviation evaluates := (evaluates truthy_ctx functions).
Local Abbreviation truthy := (truthy truthy_ctx).
Local Abbreviation passthrough := (passthrough truthy_ctx).

Implicit Types (m handler ctx nxt : obj C) (h : Heap).

Lemma compose_single_handler handler :
  _is_handler functions handler = Ok true ->
  compose_middleware functions [handler]
  = Ok (Closure_composed [Closure_middleware handler]).
Proof.
  intros Hh. unfold compose_middleware. simpl.
  unfold _convert_to_middleware. by rewrite Hh.
Qed.

Lemma compose_single_middleware m :
  _is_handler functions m = Ok false ->
  compose_middleware functions [m] = Ok (Closure_composed [m]).
Proof.
  intros Hm. unfold compose_middleware. simpl.
  unfold _convert_to_middleware. by rewrite Hm.
Qed.

(** The chain of one handler: the handler's outcome, a falsy value being
    replaced by the context. *)
Lemma invoke_single_handler handler ctx h n :
  invoke (3 + n) (Closure_composed [Closure_middleware handler]) [ctx] h
  = map_returned (passthrough ctx)
      (after [Called (chain [Closure_middleware handler] PyNone) [ctx] h;
              Called (Closure_middleware handler) [ctx; PyNone] h;
              Called handler [ctx] h]
             (invoke n handler [ctx] h)).
Proof.
  change (3 + n) with (S (S (S n))).
  rewrite invoke_composed_default, invoke_composed.
  change (chain [Closure_middleware handler] PyNone)
    with (Closure_chained_middleware (Closure_middleware handler) (PyNone (C:=C))).
  rewrite invoke_chained, invoke_middleware. simpl.
  rewrite and_then_return, !map_returned_after, !after_after.
  reflexivity.
Qed.

(** The chain of one middleware. *)
Lemma invoke_single_middleware m ctx h n :
  invoke (2 + n) (Closure_composed [m]) [ctx] h
  = map_returned (passthrough ctx)
      (after [Called (chain [m] PyNone) [ctx] h; Called m [ctx; PyNone] h]
             (invoke n m [ctx; PyNone] h)).
Proof.
  change (2 + n) with (S (S n)).
  rewrite invoke_composed_default, invoke_composed.
  change (chain [m] PyNone) with (Closure_chained_middleware m (PyNone (C:=C))).
  rewrite invoke_chained.
  rewrite !map_returned_after, !after_after.
  reflexivity.
Qed.

(** C6 (as amended).  For every handler [h], [compose_middleware(h)] wraps
    [h], and the chain invoked on [ctx] with no trailing next ends as
    [h(ctx)] ends, with the same heap: it raises what [h(ctx)] raises, yields
    the value of [h(ctx)] when that value is true, and yields [ctx] when
    [h(ctx)] is [None] or another falsy value. *)
Theorem single_handler handler :
  _is_handler functions handler = Ok true ->
  compose_middleware functions [handler]
  = Ok (Closure_composed [Closure_middleware handler])
  /\ forall n ctx h,
      invoke (3 + n) (Closure_composed [Closure_middleware handler]) [ctx] h
      = map_returned (fun v => if truthy v then v else ctx)
          (after [Called (chain [Closure_middleware handler] PyNone) [ctx] h;
                  Called (Closure_middleware handler) [ctx; PyNone] h;
                  Called handler [ctx] h]
                 (invoke n handler [ctx] h)).
Proof.
  intros Hh. split; [by apply compose_single_handler|].
  intros n ctx h. rewrite invoke_single_handler.
  destruct (invoke n handler [ctx] h) as [[[[v|e] h'] t]|]; simpl; try done.
  unfold passthrough. by destruct (truthy v).
Qed.

(** C7.  For every middleware [m] that returns its input context when its
    next is absent, the chain of [compose_middleware(m)] invoked on [ctx]
    with no trailing next yields [ctx].  ([m] is called as [m(ctx)] when
    [_is_handler] takes it for a handler, and as [m(ctx, None)] otherwise.) *)
Theorem identity_middleware m (is_handler : bool) ctx h n h'
    (t : list (event C Heap)) :
  _is_handler functions m = Ok is_handler ->
  invoke n m (if is_handler then [ctx] else [ctx; PyNone]) h
  = Some (Returned ctx, h', t) ->
  exists composed_chain t',
    compose_middleware functions [m] = Ok composed_chain
    /\ evaluates composed_chain [ctx] h (Returned ctx, h', t').
Proof.
  intros Hm Hrun. destruct is_handler.
  - eexists _, _. split; [by apply compose_single_handler|].
    exists (3 + n). rewrite invoke_single_handler, Hrun. simpl.
    unfold passthrough. by destruct (truthy ctx).
  - eexists _, _. split; [by apply compose_single_middleware|].
    exists (2 + n). rewrite invoke_single_middleware, Hrun. simpl.
    unfold passthrough. by destruct (truthy ctx).
Qed.

(** C9.  [compose_middleware()] succeeds, but its chain is not the
    identity: invoked with no trailing next it calls [None] and raises
    [TypeError]; invoked with a trailing next [nxt] it ends as [nxt(ctx)]
    ends. *)
Theorem compose_empty :
  compose_middleware functions [] = Ok (Closure_composed [])
  /\ (forall n ctx h,
        invoke (2 + n) (Closure_composed []) [ctx] h
        = Some (Raised (TypeError NotCallable), h, [Called PyNone [ctx] h]))
  /\ (forall n ctx nxt h,
        invoke (1 + n) (Closure_composed []) [ctx; nxt] h
        = after [Called nxt [ctx] h] (invoke n nxt [ctx] h)).
Proof.
  split; [reflexivity|]. split.
  - intros n ctx h. reflexivity.
  - intros n ctx nxt h. apply invoke_composed.
Qed.

End Adapter.

(** ** Classification *)

Section Classification.

Context {C Heap Err : Type}.
Variable truthy_ctx : C -> bool.
Variable functions : string -> pyfunction C Heap Err.

Local Abbreviation invoke := (invoke truthy_ctx functions).

Implicit Types (m ctx nxt : obj C) (h : Heap) (ms : list (obj C)).

(** [_is_handler] counts the parameters without default, of every kind. *)
Lemma is_handler_count m params :
  inspect_signature functions m = Ok params ->
  _is_handler functions m = Ok (Nat.eqb (no_default_count params) 1).
Proof.
  intros Hm. unfold _is_handler, no_default_count.
  by rewrite Hm, length_map.
Qed.

(** On a signature made of positional parameters only, that is the number
    of required positional parameters. *)
Lemma no_default_count_positional (params : list (parameter C)) :
  Forall (fun p => is_positional p = true) params ->
  no_default_count params = required_positional_count params.
Proof.
  unfold no_default_count, required_positional_count.
  induction 1 as [|p params Hp Hps IH]; [done|].
  rewrite !filter_cons.
  destruct (decide (default p = None)) as [Hd|Hd].
  - rewrite decide_True by done. simpl. by rewrite IH.
  - rewrite decide_False by (by intros [_ ?]). done.
Qed.

Lemma convert_callable m :
  callable functions m = true ->
  exists m', _convert_to_middleware functions m = Ok m'.
Proof.
  unfold callable, _convert_to_middleware, _is_handler.
  destruct (inspect_signature functions m) as [params|e]; [|done].
  intros _. destruct (Nat.eqb _ 1); by eexists.
Qed.

Lemma convert_all_callable ms :
  Forall (fun m => callable functions m = true) ms ->
  exists ms', convert_all functions ms = Ok ms'.
Proof.
  induction 1 as [|m ms Hm Hms [ms' IH]]; [by eexists|].
  destruct (convert_callable m Hm) as [m' Hm'].
  exists (m' :: ms'). simpl. by rewrite Hm', IH.
Qed.

Lemma convert_all_app ms1 ms2 ms1' ms2' :
  convert_all functions ms1 = Ok ms1' ->
  convert_all functions ms2 = Ok ms2' ->
  convert_all functions (ms1 ++ ms2) = Ok (ms1' ++ ms2').
Proof.
  revert ms1'. induction ms1 as [|m ms1 IH]; intros ms1'; simpl.
  - by intros [= <-].
  - destruct (_convert_to_middleware functions m) as [m'|e]; [|done].
    destruct (convert_all functions ms1) as [ms1''|e]; [|done].
    intros [= <-] H2. by rewrite (IH ms1'' eq_refl H2).
Qed.

(** C8 (as amended).  [compose_middleware] never rejects a callable for its
    arity.  A function whose number of parameters without default is not
    one (none, two, three or more) is left as it is, as a middleware, among
    callables of any kind; and if the two arguments that a chained step
    passes do not fit its signature, the [TypeError] is raised only when
    the chain is invoked, by that call. *)
Theorem compose_accepts_every_arity (before after_ : list (obj C))
    (name : string) :
  Forall (fun m => callable functions m = true) before ->
  Forall (fun m => callable functions m = true) after_ ->
  no_default_count (parameters (functions name)) <> 1 ->
  (exists before' after',
     compose_middleware functions (before ++ User name :: after_)
     = Ok (Closure_composed (before' ++ User name :: after')))
  /\ (forall ctx h n,
        bind_arguments (parameters (functions name)) [ctx; PyNone] = None ->
        compose_middleware functions [User name]
        = Ok (Closure_composed [User name])
        /\ invoke (3 + n) (Closure_composed [User name]) [ctx] h
           = Some (Raised (TypeError BadArguments), h,
                   [Called (chain [User name] PyNone) [ctx] h;
                    Called (User name) [ctx; PyNone] h])).
Proof.
  intros Hbefore Hafter Hcount.
  assert (Hkeep : _convert_to_middleware functions (User name) = Ok (User name)).
  { unfold _convert_to_middleware.
    rewrite (is_handler_count _ (parameters (functions name))) by done.
    by apply Nat.eqb_neq in Hcount as ->. }
  split.
  - destruct (convert_all_callable _ Hbefore) as [before' Hb].
    destruct (convert_all_callable _ Hafter) as [after' Ha].
    exists before', after'. unfold compose_middleware.
    rewrite (convert_all_app _ (User name :: after_) before' (User name :: after'));
      [done|done|].
    simpl. by rewrite Hkeep, Ha.
  - intros ctx h n Hbind. split.
    + unfold compose_middleware. simpl. by rewrite Hkeep.
    + change (3 + n) with (2 + S n).
      rewrite invoke_single_middleware, invoke_user, Hbind. reflexivity.
Qed.

End Classification.

Lemma single_handler_witness :
  _is_handler Counter.functions (User "set_five") = Ok true
  /\ compose_middleware Counter.functions [User "set_five"]
     = Ok (Closure_composed [Closure_middleware (User "set_five")])
  /\ invoke always_true Counter.functions 4
       (Closure_composed [Closure_middleware (User "set_five")])
       [Counter.ctx0] Counter.heap0
     = Some (Returned Counter.ctx0, {[ 0 := 5%Z ]},
             [Called (chain [Closure_middleware (User "set_five")] PyNone)
                     [Counter.ctx0] Counter.heap0;
              Called (Closure_middleware (User "set_five"))
                     [Counter.ctx0; PyNone] Counter.heap0;
              Called (User "set_five") [Counter.ctx0] Counter.heap0]).
Proof.
  split; [reflexivity|].
  destruct (single_handler always_true Counter.functions (User "set_five")
              eq_refl) as [Hcompose Hrun].
  split; [exact Hcompose|].
  exact (eq_trans (Hrun 1 Counter.ctx0 Counter.heap0) eq_refl).
Defined.

(** C6 (as stated) fails: the handler [set_five] returns [None], and the
    chain of [compose_middleware(set_five)] yields the context instead. *)
Lemma single_handler_counterexample :
  _is_handler Counter.functions (User "set_five") = Ok true
  /\ evaluates always_true Counter.functions (User "set_five")
       [Counter.ctx0] Counter.heap0 (Returned PyNone, {[ 0 := 5%Z ]}, [])
  /\ exists composed_chain t,
      compose_middleware Counter.functions [User "set_five"] = Ok composed_chain
      /\ evaluates always_true Counter.functions composed_chain
           [Counter.ctx0] Counter.heap0
           (Returned Counter.ctx0, {[ 0 := 5%Z ]}, t)
      /\ ~ (exists h' t',
              evaluates always_true Counter.functions composed_chain
                [Counter.ctx0] Counter.heap0 (Returned PyNone, h', t')).
Proof.
  split; [reflexivity|]. split; [exists 1; vm_compute; reflexivity|].
  assert (Hctx0 : exists t,
    evaluates always_true Counter.functions
      (Closure_composed [Closure_middleware (User "set_five")])
      [Counter.ctx0] Counter.heap0 (Returned Counter.ctx0, {[ 0 := 5%Z ]}, t))
    by (eexists; exists 4; vm_compute; reflexivity).
  destruct Hctx0 as [t Hctx0].
  exists (Closure_composed [Closure_middleware (User "set_five")]), t.
  split; [reflexivity|]. split; [exact Hctx0|].
  intros (h' & t' & Hnone).
  by pose proof (evaluates_det _ _ _ _ _ _ _ Hctx0 Hnone).
Qed.

Lemma identity_middleware_witness :
  _is_handler Counter.functions (User "inc2_guarded") = Ok false
  /\ invoke always_true Counter.functions 1 (User "inc2_guarded")
       [Counter.ctx0; PyNone] Counter.heap0
     = Some (Returned Counter.ctx0, {[ 0 := 2%Z ]}, [])
  /\ exists composed_chain t',
      compose_middleware Counter.functions [User "inc2_guarded"]
      = Ok composed_chain
      /\ evaluates always_true Counter.functions composed_chain
           [Counter.ctx0] Counter.heap0
           (Returned Counter.ctx0, {[ 0 := 2%Z ]}, t').
Proof.
  assert (Hrun : invoke always_true Counter.functions 1 (User "inc2_guarded")
                   [Counter.ctx0; PyNone] Counter.heap0
                 = Some (Returned Counter.ctx0, {[ 0 := 2%Z ]}, []))
    by (vm_compute; reflexivity).
  split; [reflexivity|]. split; [exact Hrun|].
  exact (identity_middleware always_true Counter.functions
           (User "inc2_guarded") false Counter.ctx0 Counter.heap0 1
           {[ 0 := 2%Z ]} [] eq_refl Hrun).
Defined.

Lemma compose_accepts_every_arity_witness :
  Forall (fun m => callable Counter.functions m = true) [User "inc1"]
  /\ Forall (fun m => callable Counter.functions m = true) [User "terminal"]
  /\ no_default_count (parameters (Counter.functions "three")) <> 1
  /\ bind_arguments (parameters (Counter.functions "three"))
       [Counter.ctx0; PyNone] = None
  /\ (exists before' after',
        compose_middleware Counter.functions
          ([User "inc1"] ++ User "three" :: [User "terminal"])
        = Ok (Closure_composed (before' ++ User "three" :: after')))
  /\ invoke always_true Counter.functions 3 (Closure_composed [User "three"])
       [Counter.ctx0] Counter.heap0
     = Some (Raised (TypeError BadArguments), Counter.heap0,
             [Called (chain [User "three"] PyNone) [Counter.ctx0] Counter.heap0;
              Called (User "three") [Counter.ctx0; PyNone] Counter.heap0]).
Proof.
  assert (H1 : Forall (fun m => callable Counter.functions m = true)
                 [User "inc1"]) by (by repeat constructor).
  assert (H2 : Forall (fun m => callable Counter.functions m = true)
                 [User "terminal"]) by (by repeat constructor).
  assert (H3 : no_default_count (parameters (Counter.functions "three")) <> 1)
    by (vm_compute; discriminate).
  destruct (compose_accepts_every_arity always_true Counter.functions
              [User "inc1"] [User "terminal"] "three" H1 H2 H3)
    as [Hcompose Hcall].
  split; [exact H1|]. split; [exact H2|]. split; [exact H3|].
  split; [reflexivity|]. split; [exact Hcompose|].
  exact (proj2 (Hcall Counter.ctx0 Counter.heap0 0 eq_refl)).
Defined.

(** C8 (as stated) fails: [no_params] has no parameter and [three] has three
    required ones; [compose_middleware] accepts both, keeps them as
    middleware, and the [TypeError] comes when the chain is invoked. *)
Lemma arity_not_rejected_counterexample :
  parameters (Counter.functions "no_params") = []
  /\ compose_middleware Counter.functions [User "no_params"]
     = Ok (Closure_composed [User "no_params"])
  /\ invoke always_true Counter.functions 3 (Closure_composed [User "no_params"])
       [Counter.ctx0] Counter.heap0
     = Some (Raised (TypeError BadArguments), Counter.heap0,
             [Called (chain [User "no_params"] PyNone) [Counter.ctx0]
                     Counter.heap0;
              Called (User "no_params") [Counter.ctx0; PyNone] Counter.heap0])
  /\ required_positional_count (parameters (Counter.functions "three")) = 3
  /\ compose_middleware Counter.functions [User "three"]
     = Ok (Closure_composed [User "three"])
  /\ invoke always_true Counter.functions 3 (Closure_composed [User "three"])
       [Counter.ctx0] Counter.heap0
     = Some (Raised (TypeError BadArguments), Counter.heap0,
             [Called (chain [User "three"] PyNone) [Counter.ctx0] Counter.heap0;
              Called (User "three") [Counter.ctx0; PyNone] Counter.heap0]).
Proof. repeat split. Qed.

(** C4, at the function [async def with_kwargs(ctx, **kwargs)]: it has
    exactly one required positional parameter and runs when called as a
    handler, but [_is_handler] counts [**kwargs] too and answers [False];
    the function is kept as a middleware, and the chain fails when it calls
    it with two positional arguments. *)
Theorem is_handler_counts_keyword_parameters :
  required_positional_count (parameters (Counter.functions "with_kwargs")) = 1
  /\ invoke always_true Counter.functions 1 (User "with_kwargs")
       [Counter.ctx0] Counter.heap0
     = Some (Returned Counter.ctx0, Counter.heap0, [])
  /\ _is_handler Counter.functions (User "with_kwargs") = Ok false
  /\ compose_middleware Counter.functions [User "with_kwargs"]
     = Ok (Closure_composed [User "with_kwargs"])
  /\ invoke always_true Counter.functions 3
       (Closure_composed [User "with_kwargs"]) [Counter.ctx0] Counter.heap0
     = Some (Raised (TypeError BadArguments), Counter.heap0,
             [Called (chain [User "with_kwargs"] PyNone) [Counter.ctx0]
                     Counter.heap0;
              Called (User "with_kwargs") [Counter.ctx0; PyNone] Counter.heap0]).
Proof. repeat split. Qed.

(** ** The body of an HTTP response *)

Section HttpBody.

Context {Err Other : Type}.
Variable encode_utf8 : string -> res Err (list Byte.byte).
Variable json_dumps : Other -> res Err string.

Local Abbreviation body_set := (body_set encode_utf8 json_dumps).


End HttpBody.


(** ** More on composed chains *)

Section Chains.

Context {C Heap Err : Type}.
Variable truthy_ctx : C -> bool.
Variable functions : string -> pyfunction C Heap Err.

Local Abbreviation invoke := (invoke truthy_ctx functions).
Local Abbreviation truthy := (truthy truthy_ctx).
Local Abbreviation passthrough := (passthrough truthy_ctx).

Implicit Types (m handler ctx nxt : obj C) (h : Heap).
Implicit Types (ms post : list (obj C)).
Implicit Types (fs : list (string * pre_processing (C:=C) (Heap:=Heap))).

Lemma convert_idempotent m m' :
  _convert_to_middleware functions m = Ok m' ->
  _convert_to_middleware functions m' = Ok m'.
Proof.
  unfold _convert_to_middleware.
  destruct (_is_handler functions m) as [[|]|e] eqn:Hm; intros [= <-].
  - reflexivity.
  - by rewrite Hm.
Qed.

Lemma convert_all_idempotent ms ms' :
  convert_all functions ms = Ok ms' ->
  convert_all functions ms' = Ok ms' /\ length ms' = length ms.
Proof.
  revert ms'. induction ms as [|m ms IH]; intros ms'; simpl.
  - by intros [= <-].
  - destruct (_convert_to_middleware functions m) as [m'|e] eqn:Hm; [|done].
    destruct (convert_all functions ms) as [ms''|e]; [|done].
    intros [= <-]. destruct (IH ms'' eq_refl) as [IH1 IH2]. simpl.
    by rewrite (convert_idempotent _ _ Hm), IH1, IH2.
Qed.

(** X1.  What [compose_middleware] builds is stable: the chain keeps one
    element for each callable given, and composing the elements it holds
    builds the same chain again (a wrapped handler is not wrapped twice). *)
Theorem compose_converted_again ms composed_chain :
  compose_middleware functions ms = Ok composed_chain ->
  exists ms',
    composed_chain = Closure_composed ms'
    /\ length ms' = length ms
    /\ compose_middleware functions ms' = Ok composed_chain.
Proof.
  unfold compose_middleware.
  destruct (convert_all functions ms) as [ms'|e] eqn:Hms; [|done].
  intros [= <-]. destruct (convert_all_idempotent _ _ Hms) as [Hagain Hlen].
  exists ms'. by rewrite Hagain.
Qed.

Lemma invoke_composed_forwarders fs nxt n ctx h :
  forwarders functions fs ->
  invoke (S (2 * length fs + n)) (Closure_composed (middlewares_of fs))
         [ctx; nxt] h
  = map_returned (unwind truthy_ctx (pre_pass_inputs fs ctx h))
      (after (Called (chain (middlewares_of fs) nxt) [ctx] h
              :: pre_pass_events fs nxt ctx h)
             (invoke n nxt [(pre_pass fs ctx h).1] (pre_pass fs ctx h).2)).
Proof.
  intros Hfs. rewrite invoke_composed, invoke_chain_forwarders by done.
  by rewrite <- map_returned_after, after_after.
Qed.

Lemma user_calls_chain_events fs nxt ctx h :
  (forall name, nxt <> User name) ->
  user_calls (Called (chain (middlewares_of fs) nxt) [ctx] h
              :: pre_pass_events fs nxt ctx h)
  = fs.*1.
Proof.
  intros Hnxt.
  transitivity (user_calls (pre_pass_events fs nxt ctx h)).
  - destruct fs as [|[name pre] fs]; [|done].
    simpl. destruct nxt; try done. by destruct (Hnxt name).
  - by apply user_calls_pre_pass_events.
Qed.

(** X3.  The middleware that follows a handler is called on what the
    handler returned, not on the context: when the handler returns [v]
    ([None] if it only changed the context in place), the next middleware
    [m] receives [v] as its context, on the heap the handler left. *)
Theorem next_receives_handler_result handler m post nxt ctx h n
    (v : obj C) (h1 : Heap) (t1 : list (event C Heap)) :
  invoke (S n) handler [ctx] h = Some (Returned v, h1, t1) ->
  invoke (4 + n)
         (Closure_composed (Closure_middleware handler :: m :: post))
         [ctx; nxt] h
  = map_returned (fun out => passthrough ctx (passthrough v out))
      (after ([Called (chain (Closure_middleware handler :: m :: post) nxt)
                      [ctx] h;
               Called (Closure_middleware handler)
                      [ctx; chain (m :: post) nxt] h;
               Called handler [ctx] h]
              ++ t1
              ++ [Called (chain (m :: post) nxt) [v] h1;
                  Called m [v; chain post nxt] h1])
             (invoke n m [v; chain post nxt] h1)).
Proof.
  intros Hhandler. change (4 + n) with (S (S (S (S n)))).
  rewrite invoke_composed.
  change (chain (Closure_middleware handler :: m :: post) nxt)
    with (Closure_chained_middleware (Closure_middleware handler)
            (chain (m :: post) nxt)).
  rewrite invoke_chained, invoke_middleware, Hhandler.
  change (chain (m :: post) nxt)
    with (Closure_chained_middleware m (chain post nxt)).
  cbn [and_then after truthy app].
  rewrite invoke_chained.
  rewrite !map_returned_after, map_returned_compose, !after_after.
  by rewrite <- !app_assoc.
Qed.

(** X4.  The usual pipeline, forwarding middleware followed by a handler
    and no trailing next: [compose_middleware] wraps the handler only; the
    handler is called once the pre-processing has run in declaration order,
    on the context and the heap it hands on; the invocation ends as the
    handler ends, a falsy value of the handler being replaced by the
    context the handler received (or, if that one is falsy too, by the
    nearest true context received before it). *)
Theorem pipeline_ends_in_handler fs handler ctx h :
  forwarders functions fs ->
  _is_handler functions handler = Ok true ->
  compose_middleware functions (middlewares_of fs ++ [handler])
  = Ok (Closure_composed (middlewares_of fs ++ [Closure_middleware handler]))
  /\ forall n,
      invoke (S (2 * length fs + S (S n)))
             (Closure_composed (middlewares_of fs ++ [Closure_middleware handler]))
             [ctx] h
      = map_returned
          (fun out => unwind truthy_ctx (pre_pass_inputs fs ctx h)
                        (passthrough (pre_pass fs ctx h).1 out))
          (after (Called (chain (middlewares_of fs ++ [Closure_middleware handler])
                                PyNone) [ctx] h
                  :: pre_pass_events fs (chain [Closure_middleware handler] PyNone)
                                     ctx h
                  ++ [Called (Closure_middleware handler)
                             [(pre_pass fs ctx h).1; PyNone] (pre_pass fs ctx h).2;
                      Called handler [(pre_pass fs ctx h).1]
                             (pre_pass fs ctx h).2])
                 (invoke n handler [(pre_pass fs ctx h).1] (pre_pass fs ctx h).2)).
Proof.
  intros Hfs Hhandler. split.
  - unfold compose_middleware.
    rewrite (convert_all_app functions _ [handler] (middlewares_of fs)
               [Closure_middleware handler]); [done| |].
    + by apply convert_all_forwarders.
    + simpl. unfold _convert_to_middleware. by rewrite Hhandler.
  - intros n. rewrite invoke_composed_default, invoke_composed_at by done.
    change (chain [] PyNone) with (PyNone (C:=C)).
    rewrite invoke_middleware. simpl.
    rewrite and_then_return, !map_returned_after, !after_after.
    f_equal. simpl. by rewrite <- app_assoc.
Qed.

(** X5.  A chain made of forwarding middleware only, invoked with no
    trailing next, always raises [TypeError]: the pre-processing of every
    middleware runs, in declaration order, and the last middleware then
    calls its next, which is [None]. *)
Theorem forwarders_need_a_next fs ctx h n :
  forwarders functions fs ->
  invoke (S (2 * length fs + S n)) (Closure_composed (middlewares_of fs)) [ctx] h
  = Some (Raised (TypeError NotCallable), (pre_pass fs ctx h).2,
          Called (chain (middlewares_of fs) PyNone) [ctx] h
          :: pre_pass_events fs PyNone ctx h)
  /\ user_calls (Called (chain (middlewares_of fs) PyNone) [ctx] h
                 :: pre_pass_events fs PyNone ctx h)
     = fs.*1.
Proof.
  intros Hfs. split.
  - rewrite invoke_composed_default, invoke_composed_forwarders by done.
    simpl. by rewrite app_nil_r.
  - by apply user_calls_chain_events.
Qed.

(** X6.  A chain is continued by its trailing next: for forwarding
    middleware [fs], the chain of [fs] followed by [ms], invoked with no
    trailing next, ends as the chain of [fs] alone invoked with the chain
    of [ms] as its trailing next, with the same value or exception and the
    same heap. *)
Theorem trailing_next_continues_chain fs ms ctx h n :
  forwarders functions fs ->
  outcome_of (invoke (S (2 * length fs + n))
                     (Closure_composed (middlewares_of fs ++ ms)) [ctx] h)
  = outcome_of (invoke (S (2 * length fs + S n))
                       (Closure_composed (middlewares_of fs))
                       [ctx; Closure_composed ms] h).
Proof.
  intros Hfs.
  rewrite invoke_composed_default, invoke_composed, chain_app.
  rewrite invoke_chain_forwarders, invoke_composed_forwarders by done.
  rewrite invoke_composed_default, invoke_composed.
  destruct (invoke n (chain ms PyNone) _ _) as [[[[v|e] h'] t]|]; reflexivity.
Qed.

(** X7.  A composed chain given as an element of another composition is
    taken for a handler ([composed(ctx, nxt=None)] has one parameter without
    default) and wrapped, so it is called without a next.  A nested chain of
    forwarding middleware therefore raises [TypeError] after its
    pre-processing, and nothing that follows it in the outer chain is
    called. *)
Theorem nested_chain_loses_next fs post nxt ctx h n :
  forwarders functions fs ->
  _convert_to_middleware functions (Closure_composed (middlewares_of fs))
  = Ok (Closure_middleware (Closure_composed (middlewares_of fs)))
  /\ exists t,
      invoke (3 + S (2 * length fs + S n))
             (Closure_composed
                (Closure_middleware (Closure_composed (middlewares_of fs))
                 :: post))
             [ctx; nxt] h
      = Some (Raised (TypeError NotCallable), (pre_pass fs ctx h).2, t)
      /\ user_calls t = fs.*1.
Proof.
  intros Hfs. split; [reflexivity|].
  eexists. split.
  - change (3 + ?k) with (S (S (S k))).
    rewrite invoke_composed.
    change (chain (?w :: post) nxt)
      with (Closure_chained_middleware w (chain post nxt)).
    rewrite invoke_chained, invoke_middleware.
    rewrite invoke_composed_default, invoke_composed_forwarders by done.
    simpl. reflexivity.
  - rewrite app_nil_r.
    change (user_calls (?e1 :: ?e2 :: ?e3 :: ?l)) with (user_calls (e3 :: l)).
    by apply user_calls_chain_events.
Qed.

End Chains.

(** ** Sequences of assignments to the body of a response *)

Section HttpAssignments.

Context {Err Other : Type}.
Variable encode_utf8 : string -> res Err (list Byte.byte).
Variable json_dumps : Other -> res Err string.

Local Abbreviation body_set := (body_set encode_utf8 json_dumps).
Local Abbreviation assign_all := (assign_all encode_utf8 json_dumps).

Implicit Types (self : HttpResponse Other) (v : value Other).
Implicit Types (vs : list (value Other)).

Lemma body_set_cases self v self' :
  body_set self v = Ok self' ->
  status self' = status self
  /\ exists b, _body self' = VBytes b
  /\ ((exists o, v = VOther o)
        /\ headers self'
           = <["Content-Type" := HList ["application/json"]]> (headers self)
      \/ (forall o, v <> VOther o) /\ headers self' = headers self).
Proof.
  unfold body_set. destruct v as [s|b|o].
  - destruct (encode_utf8 s) as [b|e]; [|done]. intros [= <-]. simpl.
    split; [done|]. exists b. split; [done|]. right. by split.
  - intros [= <-]. simpl. split; [done|]. exists b. split; [done|].
    right. by split.
  - destruct (json_dumps o) as [s|e]; [|done].
    destruct (encode_utf8 s) as [b|e]; [|done]. intros [= <-]. simpl.
    split; [done|]. exists b. split; [done|]. left. split; [by exists o|done].
Qed.

(** X8.  Assignments to [body], however many, keep the status and every
    header other than [Content-Type]; when none of the values assigned is
    JSON-encoded (each is a [str] or [bytes]), all the headers are kept. *)
Theorem assignments_keep_status_and_headers self vs self' :
  assign_all self vs = Ok self' ->
  status self' = status self
  /\ (forall k, k <> "Content-Type" -> headers self' !! k = headers self !! k)
  /\ ((forall o, VOther o ∉ vs) -> headers self' = headers self).
Proof.
  revert self. induction vs as [|v vs IH]; intros self; simpl.
  - by intros [= <-].
  - destruct (body_set self v) as [self1|e] eqn:Hv; [|done].
    intros Hvs. destruct (IH _ Hvs) as (Hstatus & Hother & Hall).
    destruct (body_set_cases _ _ _ Hv) as (Hs1 & b & _ & Hheaders).
    split; [congruence|]. split.
    + intros k Hk. rewrite (Hother k Hk).
      destruct Hheaders as [[_ ->]|[_ ->]]; [|done].
      by rewrite lookup_insert_ne.
    + intros Hnone. rewrite Hall.
      * destruct Hheaders as [[[o ->] _]|[_ ->]]; [|done].
        destruct (Hnone o). apply list_elem_of_here.
      * intros o Ho. apply (Hnone o). by apply list_elem_of_further.
Qed.

(** X9.  [Content-Type] sticks: once it is [["application/json"]], by a
    JSON-encoded assignment of the sequence or before it, it is still so
    after every later assignment, also of a [str] or of [bytes], whose body
    is not JSON. *)
Theorem content_type_sticks self vs self' :
  assign_all self vs = Ok self' ->
  headers self !! "Content-Type" = Some (HList ["application/json"])
  \/ (exists o, VOther o ∈ vs) ->
  headers self' !! "Content-Type" = Some (HList ["application/json"]).
Proof.
  revert self. induction vs as [|v vs IH]; intros self; simpl.
  - intros [= <-] [Hct|[o Ho]]; [done|]. by apply not_elem_of_nil in Ho.
  - destruct (body_set self v) as [self1|e] eqn:Hv; [|done].
    intros Hvs Hor. apply (IH _ Hvs).
    destruct (body_set_cases _ _ _ Hv) as (_ & b & _ & Hheaders).
    destruct Hheaders as [[_ Hh]|[Hnot Hh]].
    + left. rewrite Hh. apply lookup_insert_eq.
    + destruct Hor as [Hct|[o Ho]].
      * left. by rewrite Hh.
      * right. exists o. apply elem_of_cons in Ho as [Heq|Ho]; [|done].
        by destruct (Hnot o).
Qed.

(** X10.  Assigning the same value twice is assigning it once: the second
    assignment succeeds and leaves the response as the first left it. *)
Theorem assignment_idempotent self v self' :
  body_set self v = Ok self' -> body_set self' v = Ok self'.
Proof.
  unfold body_set. destruct v as [s|b|o].
  - destruct (encode_utf8 s) as [b|e]; [|done]. by intros [= <-].
  - by intros [= <-].
  - destruct (json_dumps o) as [s|e]; [|done].
    destruct (encode_utf8 s) as [b|e]; [|done]. intros [= <-]. simpl.
    by rewrite insert_insert_eq.
Qed.

(** X11.  The last assignment decides the body: after a sequence of
    assignments ending with [v], the body is the one that assigning [v]
    gives on any response. *)
Theorem last_assignment_decides_body self vs v self' other other' :
  assign_all self (vs ++ [v]) = Ok self' ->
  body_set other v = Ok other' ->
  body_get self' = body_get other'.
Proof.
  revert self. induction vs as [|v0 vs IH]; intros self; simpl.
  - destruct (body_set self v) as [self1|e] eqn:Hv; [|done].
    intros [= <-] Hother. revert Hv Hother. unfold body_set.
    destruct v as [s|b|o].
    + destruct (encode_utf8 s) as [b|e]; [|done]. by intros [= <-] [= <-].
    + by intros [= <-] [= <-].
    + destruct (json_dumps o) as [s|e]; [|done].
      destruct (encode_utf8 s) as [b|e]; [|done]. by intros [= <-] [= <-].
  - destruct (body_set self v0) as [self1|e]; [|done]. apply IH.
Qed.

End HttpAssignments.

(** ** The JSON body of a request *)

Section RequestJson.

Context {Err Json : Type}.
Variable decode_utf8 : list Byte.byte -> res Err string.
Variable json_loads : string -> res Err Json.
Variable none : Json.
Variable is_JSONDecodeError : Err -> bool.

Local Abbreviation body := (Request.body decode_utf8).
Local Abbreviation json :=
  (Request.json decode_utf8 json_loads none is_JSONDecodeError).

(** X12.  The property [json] raises exactly the exceptions of decoding
    the body or of [json.loads] that are neither a [TypeError] nor a
    [JSONDecodeError]: those two give [None], but a body that is not valid
    UTF-8 makes [json] raise instead of returning [None]. *)
Theorem json_raises_what_it_does_not_catch (self : Request.HttpRequest)
    (e : exn Err) :
  json self = Error e
  <-> exists x,
        e = Exception x
        /\ is_JSONDecodeError x = false
        /\ (body self = Error e
            \/ exists text, body self = Ok text /\ json_loads text = Error e).
Proof.
  unfold Request.json. split.
  - destruct (body self) as [text|e0] eqn:Hbody.
    + destruct (json_loads text) as [v|[why|x]] eqn:Hloads; try done.
      destruct (is_JSONDecodeError x) eqn:Hx; [done|].
      intros [= <-]. exists x. repeat split; [done|]. right. by exists text.
    + destruct e0 as [why|x]; [done|].
      destruct (is_JSONDecodeError x) eqn:Hx; [done|].
      intros [= <-]. exists x. repeat split; [done|]. by left.
  - intros (x & -> & Hx & [Hbody|(text & Hbody & Hloads)]).
    + by rewrite Hbody, Hx.
    + by rewrite Hbody, Hloads, Hx.
Qed.

End RequestJson.

(** ** Header names *)

Section CleanHeader.

Import Faas.

Implicit Types (c : Ascii.ascii) (s old new : string).

Lemma lower_char_idempotent c : lower_char (lower_char c) = lower_char c.
Proof. by destruct c as [[] [] [] [] [] [] [] []]. Qed.

Lemma lower_idempotent s : lower (lower s) = lower s.
Proof.
  induction s as [|c s IH]; [done|]. simpl.
  by rewrite lower_char_idempotent, IH.
Qed.

Lemma lower_app s1 s2 : lower (s1 ++ s2) = (lower s1 ++ lower s2)%string.
Proof. induction s1 as [|c s1 IH]; [done|]. simpl. by rewrite IH. Qed.

Lemma lower_replace_from old new k s :
  lower new = new -> lower s = s ->
  lower (replace_from old new k s) = replace_from old new k s.
Proof.
  intros Hnew. revert k. induction s as [|c s IH]; intros k; [done|].
  simpl. intros [= Hc Hs]. destruct k as [|k]; [|by apply IH].
  destruct (startswith old (String c s)).
  - by rewrite lower_app, Hnew, IH.
  - simpl. by rewrite Hc, IH.
Qed.

Lemma occurs_char_app c s1 s2 :
  occurs (String c EmptyString) (s1 ++ s2)
  = occurs (String c EmptyString) s1 || occurs (String c EmptyString) s2.
Proof.
  induction s1 as [|a s1 IH]; simpl.
  - by destruct s2.
  - rewrite IH. by destruct (Ascii.eqb c a).
Qed.

Lemma replace_char_removes c new s :
  occurs (String c EmptyString) new = false ->
  occurs (String c EmptyString) (replace_from (String c EmptyString) new 0 s)
  = false.
Proof.
  intros Hnew. induction s as [|a s IH]; [done|]. simpl.
  destruct (Ascii.eqb c a) eqn:Hca; simpl.
  - by rewrite occurs_char_app, Hnew, IH.
  - by rewrite Hca, IH.
Qed.

Lemma startswith_occurs_char c old s :
  startswith old s = true ->
  occurs (String c EmptyString) old = true ->
  occurs (String c EmptyString) s = true.
Proof.
  revert s. induction old as [|a old IH]; intros s; [done|].
  destruct s as [|b s]; [done|]. simpl.
  intros [Hab Hrest]%andb_prop. apply Ascii.eqb_eq in Hab as <-.
  destruct (Ascii.eqb c a); [done|]. simpl. intros Hold.
  apply (IH _ Hrest). by destruct old.
Qed.

Lemma replace_without_occurrence old new s :
  occurs old s = false -> replace_from old new 0 s = s.
Proof.
  induction s as [|a s IH]; [done|]. intros Hocc. simpl in Hocc.
  apply orb_false_elim in Hocc as [Hstart Hocc].
  cbn [replace_from]. by rewrite Hstart, IH.
Qed.

Lemma occurs_without_char c old s :
  occurs (String c EmptyString) old = true ->
  occurs (String c EmptyString) s = false ->
  occurs old s = false.
Proof.
  intros Hold. induction s as [|a s IH]; intros Hs.
  - destruct old as [|b old]; [|done]. done.
  - cbn [occurs]. apply orb_false_intro.
    + destruct (startswith old (String a s)) eqn:Hstart; [|done].
      by rewrite (startswith_occurs_char c _ _ Hstart Hold) in Hs.
    + apply IH. simpl in Hs. by apply orb_false_elim in Hs as [_ ?].
Qed.

(** X13.  A cleaned header name contains no dash and is left as it is by
    [lower], whatever the name given (of characters below 256). *)
Theorem clean_header_has_no_dash_is_lower s :
  occurs "-" (_clean_header s) = false
  /\ lower (_clean_header s) = _clean_header s.
Proof.
  unfold _clean_header, replace. split.
  - by apply replace_char_removes.
  - apply lower_replace_from; [done|].
    apply lower_replace_from; [done|]. apply lower_idempotent.
Qed.

(** X14.  Cleaning is idempotent: a cleaned name is left as it is. *)
Theorem clean_header_idempotent s :
  _clean_header (_clean_header s) = _clean_header s.
Proof.
  assert (Hdash : occurs "-" (_clean_header s) = false)
    by (by apply replace_char_removes).
  assert (Hlower : lower (_clean_header s) = _clean_header s).
  { unfold _clean_header, replace.
    apply lower_replace_from; [done|].
    apply lower_replace_from; [done|]. apply lower_idempotent. }
  unfold _clean_header at 1. rewrite Hlower. unfold replace.
  rewrite (replace_without_occurrence "x-nitric-");
    [|by apply (occurs_without_char (Ascii.ascii_of_nat 45))].
  by apply replace_without_occurrence.
Qed.

(** X15.  A name that begins, in any case, with [x-nitric-] loses that
    prefix and has its dashes turned into underscores (provided the rest
    does not contain the prefix again). *)
Theorem clean_header_strips_prefix s rest :
  lower s = ("x-nitric-" ++ rest)%string ->
  occurs "x-nitric-" rest = false ->
  _clean_header s = replace "-" "_" rest.
Proof.
  intros Hs Hrest. unfold _clean_header. rewrite Hs. f_equal.
  change (replace_from "x-nitric-" EmptyString 0 rest = rest).
  by apply replace_without_occurrence.
Qed.

End CleanHeader.

(** ** Trigger contexts *)

Section Triggers.

Import Faas.



End Triggers.

(** ** The properties above on concrete inputs *)

Lemma compose_converted_again_witness :
  compose_middleware Counter.functions [User "set_five"; User "inc1"]
  = Ok (Closure_composed [Closure_middleware (User "set_five"); User "inc1"])
  /\ exists ms',
      Closure_composed [Closure_middleware (User "set_five"); User "inc1"]
      = Closure_composed ms'
      /\ length ms' = 2
      /\ compose_middleware Counter.functions ms'
         = Ok (Closure_composed
                 [Closure_middleware (User "set_five"); User "inc1"]).
Proof.
  split; [reflexivity|].
  exact (compose_converted_again Counter.functions
           [User "set_five"; User "inc1"] _ eq_refl).
Defined.

Lemma next_receives_handler_result_witness :
  invoke always_true Counter.functions 2 (User "set_five")
    [Counter.ctx0] Counter.heap0
  = Some (Returned PyNone, {[ 0 := 5%Z ]}, [])
  /\ exists t,
      invoke always_true Counter.functions 5
        (Closure_composed [Closure_middleware (User "set_five"); User "inc1"])
        [Counter.ctx0; PyNone] Counter.heap0
      = Some (Raised (Exception "AttributeError"), {[ 0 := 5%Z ]}, t)
      /\ last t = Some (Called (User "inc1") [PyNone; PyNone] {[ 0 := 5%Z ]}).
Proof.
  split; [reflexivity|]. eexists. split.
  - exact (eq_trans
             (next_receives_handler_result always_true Counter.functions
                (User "set_five") (User "inc1") [] PyNone
                Counter.ctx0 Counter.heap0 1 PyNone {[ 0 := 5%Z ]} [] eq_refl)
             eq_refl).
  - reflexivity.
Defined.

Lemma pipeline_ends_in_handler_witness :
  forwarders Counter.functions [("later", Counter.keep)]
  /\ _is_handler Counter.functions (User "set_five") = Ok true
  /\ compose_middleware Counter.functions [User "later"; User "set_five"]
     = Ok (Closure_composed
             [User "later"; Closure_middleware (User "set_five")])
  /\ exists t,
      invoke always_true Counter.functions 6
        (Closure_composed [User "later"; Closure_middleware (User "set_five")])
        [Counter.ctx0] Counter.heap0
      = Some (Returned Counter.ctx0, {[ 0 := 5%Z ]}, t).
Proof.
  split; [exact later_forwarder|]. split; [reflexivity|].
  destruct (pipeline_ends_in_handler always_true Counter.functions
              [("later", Counter.keep)] (User "set_five")
              Counter.ctx0 Counter.heap0 later_forwarder eq_refl)
    as [Hcompose Hrun].
  split; [exact Hcompose|]. eexists.
  exact (eq_trans (Hrun 1) eq_refl).
Defined.

Lemma forwarders_need_a_next_witness :
  forwarders Counter.functions [("later", Counter.keep)]
  /\ exists t,
      invoke always_true Counter.functions 4
        (Closure_composed [User "later"]) [Counter.ctx0] Counter.heap0
      = Some (Raised (TypeError NotCallable), Counter.heap0, t)
      /\ user_calls t = ["later"].
Proof.
  split; [exact later_forwarder|].
  destruct (forwarders_need_a_next always_true Counter.functions
              [("later", Counter.keep)] Counter.ctx0 Counter.heap0 0
              later_forwarder) as [Hrun Hcalls].
  eexists. split; [exact Hrun|exact Hcalls].
Defined.

Lemma trailing_next_continues_chain_witness :
  forwarders Counter.functions [("later", Counter.keep)]
  /\ outcome_of (invoke always_true Counter.functions 5
                   (Closure_composed [User "later"; User "stop"])
                   [Counter.ctx0] Counter.heap0)
     = Some (Returned Counter.ctx0, Counter.heap0)
  /\ outcome_of (invoke always_true Counter.functions 6
                   (Closure_composed [User "later"])
                   [Counter.ctx0; Closure_composed [User "stop"]]
                   Counter.heap0)
     = Some (Returned Counter.ctx0, Counter.heap0).
Proof.
  split; [exact later_forwarder|]. split; [reflexivity|].
  exact (eq_trans
           (eq_sym (trailing_next_continues_chain always_true Counter.functions
                      [("later", Counter.keep)] [User "stop"]
                      Counter.ctx0 Counter.heap0 2 later_forwarder))
           eq_refl).
Defined.

Lemma nested_chain_loses_next_witness :
  forwarders Counter.functions [("later", Counter.keep)]
  /\ compose_middleware Counter.functions
       [Closure_composed [User "later"]; User "inc1"]
     = Ok (Closure_composed
             [Closure_middleware (Closure_composed [User "later"]);
              User "inc1"])
  /\ exists t,
      invoke always_true Counter.functions 7
        (Closure_composed
           [Closure_middleware (Closure_composed [User "later"]); User "inc1"])
        [Counter.ctx0; PyNone] Counter.heap0
      = Some (Raised (TypeError NotCallable), Counter.heap0, t)
      /\ user_calls t = ["later"].
Proof.
  split; [exact later_forwarder|]. split; [reflexivity|].
  exact (proj2 (nested_chain_loses_next always_true Counter.functions
                  [("later", Counter.keep)] [User "inc1"] PyNone
                  Counter.ctx0 Counter.heap0 0 later_forwarder)).
Defined.

Lemma json_then_text :
  assign_all Body.encode_ascii Body.dumps_bool Body.response
    [VOther true; VStr "hi"]
  = Ok {| status := 200;
          headers := {[ "Content-Type" := HList ["application/json"] ]};
          _body := VBytes (String.list_byte_of_string "hi") |}.
Proof. reflexivity. Qed.

Lemma assignments_keep_status_and_headers_witness :
  assign_all Body.encode_ascii Body.dumps_bool Body.response
    [VOther true; VStr "hi"]
  = Ok {| status := 200;
          headers := {[ "Content-Type" := HList ["application/json"] ]};
          _body := VBytes (String.list_byte_of_string "hi") |}
  /\ (200 = status Body.response)%Z
  /\ ({[ "Content-Type" := HList ["application/json"] ]} : gmap string header_value)
       !! "Location" = headers Body.response !! "Location".
Proof.
  split; [exact json_then_text|].
  destruct (assignments_keep_status_and_headers Body.encode_ascii
              Body.dumps_bool Body.response _ _ json_then_text)
    as (Hstatus & Hother & _).
  split; [exact Hstatus|]. exact (Hother "Location" ltac:(discriminate)).
Defined.

Lemma content_type_sticks_witness :
  assign_all Body.encode_ascii Body.dumps_bool Body.response
    [VOther true; VStr "hi"]
  = Ok {| status := 200;
          headers := {[ "Content-Type" := HList ["application/json"] ]};
          _body := VBytes (String.list_byte_of_string "hi") |}
  /\ (exists o : bool, VOther o ∈ [VOther true; VStr "hi"])
  /\ ({[ "Content-Type" := HList ["application/json"] ]} : gmap string header_value)
       !! "Content-Type" = Some (HList ["application/json"]).
Proof.
  assert (Hjson : exists o : bool, VOther o ∈ [VOther true; VStr "hi"])
    by (exists true; apply list_elem_of_here).
  split; [exact json_then_text|]. split; [exact Hjson|].
  exact (content_type_sticks Body.encode_ascii Body.dumps_bool Body.response
           _ _ json_then_text (or_intror Hjson)).
Defined.

Lemma assignment_idempotent_witness :
  body_set Body.encode_ascii Body.dumps_bool Body.response (VOther true)
  = Ok {| status := 200;
          headers := {[ "Content-Type" := HList ["application/json"] ]};
          _body := VBytes (String.list_byte_of_string "true") |}
  /\ body_set Body.encode_ascii Body.dumps_bool
       {| status := 200;
          headers := {[ "Content-Type" := HList ["application/json"] ]};
          _body := VBytes (String.list_byte_of_string "true") |}
       (VOther true)
     = Ok {| status := 200;
             headers := {[ "Content-Type" := HList ["application/json"] ]};
             _body := VBytes (String.list_byte_of_string "true") |}.
Proof.
  split; [reflexivity|].
  exact (assignment_idempotent Body.encode_ascii Body.dumps_bool
           Body.response (VOther true) _ eq_refl).
Defined.

Lemma last_assignment_decides_body_witness :
  assign_all Body.encode_ascii Body.dumps_bool Body.response
    ([VOther true] ++ [VStr "hi"])
  = Ok {| status := 200;
          headers := {[ "Content-Type" := HList ["application/json"] ]};
          _body := VBytes (String.list_byte_of_string "hi") |}
  /\ body_set Body.encode_ascii Body.dumps_bool Body.response (VStr "hi")
     = Ok {| status := 200; headers := ∅;
             _body := VBytes (String.list_byte_of_string "hi") |}
  /\ VBytes (Other:=bool) (String.list_byte_of_string "hi")
     = VBytes (String.list_byte_of_string "hi").
Proof.
  split; [reflexivity|]. split; [reflexivity|].
  exact (last_assignment_decides_body Body.encode_ascii Body.dumps_bool
           Body.response [VOther true] (VStr "hi") _ Body.response _
           eq_refl eq_refl).
Defined.

Lemma clean_header_strips_prefix_witness :
  Faas.lower "X-Nitric-Request-ID" = ("x-nitric-" ++ "request-id")%string
  /\ Faas.occurs "x-nitric-" "request-id" = false
  /\ Faas._clean_header "X-Nitric-Request-ID" = "request_id".
Proof.
  split; [reflexivity|]. split; [reflexivity|].
  exact (clean_header_strips_prefix "X-Nitric-Request-ID" "request-id"
           eq_refl eq_refl).
Defined.


(** ** Exceptions *)

Section Failure.

Context {C Heap Err : Type}.
Variable truthy_ctx : C -> bool.
Variable functions : string -> pyfunction C Heap Err.

Local Abbreviation invoke := (invoke truthy_ctx functions).
Local Abbreviation reaches_next := (reaches_next truthy_ctx functions).

Implicit Types (m ctx nxt rest : obj C) (h : Heap).
Implicit Types (ms before post : list (obj C)).




(** Forwarding middleware call their next outside any [try] block. *)
Lemma forwarders_reach_next
    (fs : list (string * pre_processing)) rest ctx h n :
  forwarders functions fs ->
  reaches_next (2 * length fs + n) (middlewares_of fs) rest ctx h
               n (pre_pass fs ctx h).1 (pre_pass fs ctx h).2.
Proof.
  intros Hfs. revert ctx h.
  induction Hfs as [|[name pre] fs Hname Hfs IH]; intros ctx h.
  - apply reaches_here.
  - assert (Hfuel : forall k, 2 * S k + n = S (S (2 * k + n))) by lia.
    simpl length. rewrite Hfuel.
    apply (reaches_through _ _ _ _ _ _ _ _ (pre ctx h).1 (pre ctx h).2);
      [|apply IH].
    unfold call_body. simpl in Hname. simpl. rewrite Hname. simpl.
    apply outside_get. destruct (pre ctx h) as [ctx1 h1]. simpl.
    apply outside_put, outside_call.
Qed.

End Failure.


